(** * openbr/core/plot.cpp: pivot classification and R-script synthesis

    A shallow embedding of [getPivots], [getScale], [sortFiles], the
    [RPlot] constructor, [RPlot::qplot] and the option-override loop of
    [Plot], followed by the properties stated about them.

    Conventions.
    - [QString] is [string]; [QStringList] is [list string];
      [QSet<QString>] is [gset string]; [QVector<QSet<QString>>] is
      [list (gset string)]; [QMap<QString,T>] is [gmap string T].
    - C++ [int] values are in [Z]; the only arithmetic performed on them
      is comparison, so no wrap-around can occur.  Loop counters, which
      run from [0] upwards, are in [nat].
    - [float] and [double] are IEEE-754 binary32 / binary64 values,
      represented by [spec_float] with precision 24 / 53.
    - [qFatal] aborts the process: the embedding returns [inl (Fatal _)].
      [operator[]] of [QList] and [QVector] asserts that the index is in
      range: an index outside the container returns
      [inl (IndexOutOfRange _ _ _)]. *)

From Stdlib Require Import ZArith String Ascii List Lia.
From Stdlib Require Import Floats.SpecFloat.
From stdpp Require Import base gmap sets list strings sorting pretty.

Open Scope string_scope.

(** ** Errors *)

Inductive error : Type :=
  | Fatal (msg : string)
  | IndexOutOfRange (container : string) (index size : nat).

Definition result (A : Type) : Type := error + A.

Definition Ok {A} (a : A) : result A := inr a.

Definition bind {A B} (c : result A) (k : A -> result B) : result B :=
  match c with
  | inl e => inl e
  | inr a => k a
  end.

Notation "x <- c ;; k" := (bind c (fun x => k))
  (at level 20, c at level 99, k at level 200, only parsing).

Definition qFatal {A} (msg : string) : result A := inl (Fatal msg).

(** [container[i]] on a [QList] or [QVector]. *)
Definition at_ {A} (container : string) (l : list A) (i : nat) : result A :=
  match l !! i with
  | Some x => Ok x
  | None => inl (IndexOutOfRange container i (length l))
  end.

(** [foreach] and counted [for] loops whose body can abort. *)
Fixpoint foldM {S A} (body : S -> A -> result S) (l : list A) (s : S) : result S :=
  match l with
  | [] => Ok s
  | a :: l' => s' <- body s a ;; foldM body l' s'
  end.

(** ** Characters that cannot be typed inside a string literal *)

Definition dq : string := String "034"%char "".
Definition nl : string := String "010"%char "".
Definition backslash : ascii := "092"%char.

(** ** Qt string and path functions *)

(** [QString::split(sep)] for a one-character separator, with the default
    [KeepEmptyParts]. *)
Fixpoint QString_split (sep : ascii) (s : string) : list string :=
  match s with
  | "" => [""]
  | String c s' =>
      if Ascii.eqb c sep then "" :: QString_split sep s'
      else match QString_split sep s' with
           | tok :: rest => String c tok :: rest
           | [] => [String c ""]
           end
  end.

(** [QString::replace(before, after)] for a one-character [before]. *)
Fixpoint QString_replace (before : ascii) (after : string) (s : string) : string :=
  match s with
  | "" => ""
  | String c s' =>
      (if Ascii.eqb c before then after else String c "") +:+ QString_replace before after s'
  end.

(** [QString::toLower] on the ASCII letters. *)
Definition QChar_toLower (c : ascii) : ascii :=
  let n := N_of_ascii c in
  if ((65 <=? n) && (n <=? 90))%N then ascii_of_N (n + 32) else c.

Fixpoint QString_toLower (s : string) : string :=
  match s with
  | "" => ""
  | String c s' => String (QChar_toLower c) (QString_toLower s')
  end.

(** Cut [s] at the last occurrence of [sep]. *)
Fixpoint lastIndexOf (sep : ascii) (s : string) : option (string * string) :=
  match s with
  | "" => None
  | String c s' =>
      match lastIndexOf sep s' with
      | Some (l, r) => Some (String c l, r)
      | None => if Ascii.eqb c sep then Some ("", s') else None
      end
  end.

Definition QFileInfo_fileName (file : string) : string :=
  match lastIndexOf "/" file with
  | Some (_, r) => r
  | None => file
  end.

Definition QFileInfo_path (file : string) : string :=
  match lastIndexOf "/" file with
  | Some (l, _) => if decide (l = "") then "/" else l
  | None => "."
  end.

Definition QFileInfo_completeBaseName (file : string) : string :=
  let f := QFileInfo_fileName file in
  match lastIndexOf "." f with
  | Some (l, _) => l
  | None => f
  end.

Definition QFileInfo_suffix (file : string) : string :=
  match lastIndexOf "." (QFileInfo_fileName file) with
  | Some (_, r) => r
  | None => ""
  end.

(** [QFileInfo(file).dir().dirName()]: the last component of the path of
    the enclosing directory. *)
Definition QDir_dirName (path : string) : string :=
  let p := match lastIndexOf "/" path with
           | Some (l, "") => if decide (l = "") then path else l
           | _ => path
           end in
  match lastIndexOf "/" p with
  | Some (_, r) => r
  | None => p
  end.

(** [qSort(begin, end, lessThan)]: the list ordered so that no element is
    [lessThan] its predecessor. *)
Definition qSort (lessThan : string -> string -> bool) : list string -> list string :=
  @merge_sort string (fun a b => lessThan b a = false)
    (fun a b => decide (lessThan b a = false)).

(** ** IEEE-754 values *)

Definition float : Type := spec_float.

Definition float_of_int (n : Z) : float := binary_normalize 24 128 n 0 false.
Definition double_of_int (n : Z) : spec_float := binary_normalize 53 1024 n 0 false.

(** Narrowing conversion [double -> float], round to nearest even. *)
Definition float_of_double (x : spec_float) : float :=
  match x with
  | S754_finite s m e => binary_round 24 128 s m e
  | _ => x
  end.

(** [x / 100.0] assigned to a [float]: the division is carried out in
    [double] and the quotient is narrowed. *)
Definition div_100 (x : float) : float :=
  float_of_double (SFdiv 53 1024 x (double_of_int 100)).

(** [x != 0] on a [float]. *)
Definition float_ne_0 (x : float) : bool := negb (SFeqb x (S754_zero false)).

(** ** The environment of a run *)

(** What the program reads from outside itself: the global
    [Globals->sdkPath], the outcome of [QFile::open(WriteOnly)] on a
    path, Qt's [QString::number(double)] and [QtUtils::toString(QPointF)]
    (the formatting of floating-point values is kept abstract). *)
Record Env : Type := {
  sdkPath : string;
  QFile_open : string -> bool;
  QString_number : spec_float -> string;
  QtUtils_toString : spec_float * spec_float -> string
}.

(** ** br::File *)

(** Modelled from the spec: [br::File] (openbr_plugin.h) is not among the
    sources.  Sections 3 and 6: a file name together with "a mapping from
    option name to value (string, number, boolean, or 2-tuple)", read with
    typed accessors that take an optional default; an accessor without a
    default is fatal when the key is missing.  A value converts to the
    requested type when it has that kind; a string converts to a boolean
    as [QVariant::toBool] does. *)
Inductive QVariant : Type :=
  | QV_String (s : string)
  | QV_Int (n : Z)
  | QV_Float (x : float)
  | QV_Bool (b : bool)
  | QV_PointF (x y : spec_float)
  | QV_StringList (l : list string).

Module File.

Record t : Type := {
  name : string;
  m_metadata : gmap string QVariant
}.

Definition contains (f : t) (key : string) : bool :=
  bool_decide (is_Some (m_metadata f !! key)).

Definition set (key : string) (value : QVariant) (f : t) : t :=
  {| name := name f; m_metadata := <[key := value]> (m_metadata f) |}.

Definition to_QString (v : QVariant) : option string :=
  match v with
  | QV_String s => Some s
  | QV_Int n => Some (pretty n)
  | QV_Bool b => Some (if b then "true" else "false")
  | _ => None
  end.

Definition to_int (v : QVariant) : option Z :=
  match v with
  | QV_Int n => Some n
  | _ => None
  end.

Definition to_float (v : QVariant) : option float :=
  match v with
  | QV_Float x => Some x
  | QV_Int n => Some (float_of_int n)
  | _ => None
  end.

Definition to_bool (v : QVariant) : option bool :=
  match v with
  | QV_Bool b => Some b
  | QV_Int n => Some (negb (n =? 0)%Z)
  | QV_String s => Some (negb (bool_decide (QString_toLower s ∈ [""; "0"; "false"])))
  | _ => None
  end.

Definition to_QPointF (v : QVariant) : option (spec_float * spec_float) :=
  match v with
  | QV_PointF x y => Some (x, y)
  | _ => None
  end.

Definition to_QStringList (v : QVariant) : option (list string) :=
  match v with
  | QV_StringList l => Some l
  | QV_String s => Some [s]
  | _ => None
  end.

(** [get<T>(key)] *)
Definition get {T} (conv : QVariant -> option T) (f : t) (key : string) : result T :=
  match m_metadata f !! key with
  | None => qFatal ("Missing key: " +:+ key)
  | Some v =>
      match conv v with
      | None => qFatal ("Can't convert: " +:+ key)
      | Some x => Ok x
      end
  end.

(** [get<T>(key, defaultValue)] *)
Definition get_or {T} (conv : QVariant -> option T) (f : t) (key : string) (defaultValue : T) : T :=
  match m_metadata f !! key with
  | None => defaultValue
  | Some v => default defaultValue (conv v)
  end.

(** [getBool(key, defaultValue = false)]: a key whose value is not a
    boolean counts as a flag that is set. *)
Definition getBool (f : t) (key : string) : bool :=
  match m_metadata f !! key with
  | None => false
  | Some v => default true (to_bool v)
  end.

(** [File(QString("[k1=v1,k2=v2,...]"))], given as the parsed pairs. *)
Definition of_options (l : list (string * string)) : t :=
  {| name := ""; m_metadata := list_to_map (prod_map id QV_String <$> l) |}.

End File.

(** ** QtUtils *)

(** Modelled from the spec: [QtUtils::parse] and [QtUtils::checkArgsSize]
    (qtutils.cpp) are not among the sources.  Sections 3 and 4.3: an
    override entry is split at each [=]; the token count must lie between
    the two bounds, "any other arity is a fatal input error naming the
    offending entry". *)
Definition QtUtils_parse (args : string) (split : ascii) : list string :=
  QString_split split args.

Definition QtUtils_checkArgsSize (name : string) (args : list string) (min max : nat)
  : result unit :=
  if decide (length args < min) then
    qFatal (name +:+ " expects at least " +:+ pretty min +:+ " arguments, got " +:+ pretty (length args))
  else if decide (max < length args) then
    qFatal (name +:+ " expects no more than " +:+ pretty max +:+ " arguments, got " +:+ pretty (length args))
  else Ok ().

(** ** plot.cpp *)

Definition getPivots (file : string) (headers : bool) : list string :=
  let str := if headers then QDir_dirName (QFileInfo_path file)
             else QFileInfo_completeBaseName file in
  QString_split "_" str.

Definition getScale (mode title : string) (vals : Z) : string :=
  if (vals >? 12)%Z then
    " + scale_" +:+ mode +:+ "_discrete(" +:+ dq +:+ title +:+ dq +:+ ")"
  else if (vals >? 11)%Z then
    " + scale_" +:+ mode +:+ "_brewer(" +:+ dq +:+ title +:+ dq +:+ ", palette=" +:+ dq +:+ "Set3" +:+ dq +:+ ")"
  else if (vals >? 9)%Z then
    " + scale_" +:+ mode +:+ "_brewer(" +:+ dq +:+ title +:+ dq +:+ ", palette=" +:+ dq +:+ "Paired" +:+ dq +:+ ")"
  else
    " + scale_" +:+ mode +:+ "_brewer(" +:+ dq +:+ title +:+ dq +:+ ", palette=" +:+ dq +:+ "Set1" +:+ dq +:+ ")".

Definition sortFiles (fileA fileB : string) : bool := String.ltb fileA fileB.

Module Pivot.

Record t : Type := {
  index : Z;
  size : Z;
  header : string;
  smooth : bool
}.

(** [Pivot()] *)
Definition default : t :=
  {| index := -1; size := 0; header := ""; smooth := false |}.

(** [Pivot(_index, _size, _header)] *)
Definition make (_index _size : Z) (_header : string) : t :=
  {| index := _index; size := _size; header := _header; smooth := false |}.

Definition set_smooth (b : bool) (p : t) : t :=
  {| index := index p; size := size p; header := header p; smooth := b |}.

Definition set_size (n : Z) (p : t) : t :=
  {| index := index p; size := n; header := header p; smooth := smooth p |}.

End Pivot.

Record QFile : Type := {
  fileName : string;
  written : list string
}.

Record RPlot : Type := {
  basename : string;
  suffix : string;
  file : QFile;
  pivotHeaders : list string;
  pivotItems : list (gset string);
  confidence : float;
  ncol : Z;
  flip : bool;
  major : Pivot.t;
  minor : Pivot.t
}.

(** Field assignments. *)
Definition set_file (x : QFile) (p : RPlot) : RPlot :=
  {| basename := basename p; suffix := suffix p; file := x;
     pivotHeaders := pivotHeaders p; pivotItems := pivotItems p;
     confidence := confidence p; ncol := ncol p; flip := flip p;
     major := major p; minor := minor p |}.

Definition set_pivotHeaders (x : list string) (p : RPlot) : RPlot :=
  {| basename := basename p; suffix := suffix p; file := file p;
     pivotHeaders := x; pivotItems := pivotItems p;
     confidence := confidence p; ncol := ncol p; flip := flip p;
     major := major p; minor := minor p |}.

Definition set_pivotItems (x : list (gset string)) (p : RPlot) : RPlot :=
  {| basename := basename p; suffix := suffix p; file := file p;
     pivotHeaders := pivotHeaders p; pivotItems := x;
     confidence := confidence p; ncol := ncol p; flip := flip p;
     major := major p; minor := minor p |}.

Definition set_major (x : Pivot.t) (p : RPlot) : RPlot :=
  {| basename := basename p; suffix := suffix p; file := file p;
     pivotHeaders := pivotHeaders p; pivotItems := pivotItems p;
     confidence := confidence p; ncol := ncol p; flip := flip p;
     major := x; minor := minor p |}.

Definition set_minor (x : Pivot.t) (p : RPlot) : RPlot :=
  {| basename := basename p; suffix := suffix p; file := file p;
     pivotHeaders := pivotHeaders p; pivotItems := pivotItems p;
     confidence := confidence p; ncol := ncol p; flip := flip p;
     major := major p; minor := x |}.

Definition set_confidence_ncol_flip (c : float) (n : Z) (f : bool) (p : RPlot) : RPlot :=
  {| basename := basename p; suffix := suffix p; file := file p;
     pivotHeaders := pivotHeaders p; pivotItems := pivotItems p;
     confidence := c; ncol := n; flip := f;
     major := major p; minor := minor p |}.

(** [file.write(qPrintable(s))] *)
Definition file_write (s : string) (p : RPlot) : RPlot :=
  set_file {| fileName := fileName (file p); written := written (file p) ++ [s] |} p.

(** *** The constructor [RPlot::RPlot(files, destination)] *)

(** The members as they stand once [basename], [suffix] and [file] are
    set: [major] and [minor] are default-constructed, the containers are
    empty; [confidence], [ncol] and [flip] are assigned before the
    constructor returns and are not read before that. *)
Definition RPlot_members (basename suffix fileName : string) : RPlot :=
  {| basename := basename; suffix := suffix;
     file := {| fileName := fileName; written := [] |};
     pivotHeaders := []; pivotItems := [];
     confidence := S754_zero false; ncol := 0; flip := false;
     major := Pivot.default; minor := Pivot.default |}.

(** Body of [for (int i=0; i<pivots.size(); i++)], lines 104-107. *)
Definition readPivot (pivots : list string) (p : RPlot) (i : nat) : result RPlot :=
  items_i <- at_ "pivotItems" (pivotItems p) i ;;
  pivots_i <- at_ "pivots" pivots i ;;
  let p := set_pivotItems (<[i := {[pivots_i]} ∪ items_i]> (pivotItems p)) p in
  headers_i <- at_ "pivotHeaders" (pivotHeaders p) i ;;
  Ok (file_write ("tmp$" +:+ headers_i +:+ " <- " +:+ dq +:+ pivots_i +:+ dq +:+ nl) p).

(** Body of [foreach (const QString &fileName, files)], lines 94-109. *)
Definition readFile (p : RPlot) (fileName : string) : result RPlot :=
  let pivots := getPivots fileName false in
  let mismatch := bool_decide (length pivots ≠ length (pivotHeaders p)) in
  let pivots := if mismatch then [QFileInfo_completeBaseName fileName] else pivots in
  let p := if mismatch then set_pivotHeaders ["File"] p else p in
  let p := file_write
             (QString_replace backslash "\\"
                ("tmp <- read.csv(" +:+ dq +:+ fileName +:+ dq +:+ ")" +:+ nl)) p in
  p <- foldM (readPivot pivots) (seq 0 (length pivots)) p ;;
  Ok (file_write ("data <- rbind(data, tmp)" +:+ nl) p).

(** Body of [for (int i=0; i<pivotItems.size(); i++)], lines 111-119. *)
Definition classifyPivot (p : RPlot) (i : nat) : result RPlot :=
  items_i <- at_ "pivotItems" (pivotItems p) i ;;
  let size := Z.of_nat (size items_i) in
  if (size >? Pivot.size (major p))%Z then
    let p := set_minor (major p) p in
    headers_i <- at_ "pivotHeaders" (pivotHeaders p) i ;;
    Ok (set_major (Pivot.make (Z.of_nat i) size headers_i) p)
  else if (size >? Pivot.size (minor p))%Z then
    headers_i <- at_ "pivotHeaders" (pivotHeaders p) i ;;
    Ok (set_minor (Pivot.make (Z.of_nat i) size headers_i) p)
  else Ok p.

(** Lines 121-131: smoothing, the swap, [confidence], [ncol], [flip]. *)
Definition smoothAndOrder (destination : File.t) (p : RPlot) : RPlot :=
  let smooth := File.get_or File.to_QString destination "smooth" "" in
  let major_smooth :=
    negb (bool_decide (smooth = "")) && bool_decide (Pivot.header (major p) = smooth)
    && (Pivot.size (major p) >? 1)%Z in
  let p := set_major (Pivot.set_smooth major_smooth (major p)) p in
  let minor_smooth :=
    negb (bool_decide (smooth = "")) && bool_decide (Pivot.header (minor p) = smooth)
    && (Pivot.size (minor p) >? 1)%Z in
  let p := set_minor (Pivot.set_smooth minor_smooth (minor p)) p in
  let p := if Pivot.smooth (major p) then set_major (Pivot.set_size 1 (major p)) p else p in
  let p := if Pivot.smooth (minor p) then set_minor (Pivot.set_size 1 (minor p)) p else p in
  let p := if (Pivot.size (major p) <? Pivot.size (minor p))%Z
           then set_minor (major p) (set_major (minor p) p) else p in
  let confidence := div_100 (File.get_or File.to_float destination "confidence" (float_of_int 95)) in
  let ncol :=
    File.get_or File.to_int destination "ncol"
      (if (Pivot.size (major p) >? 1)%Z then Pivot.size (major p)
       else if bool_decide (Pivot.header (minor p) = "") then Pivot.size (major p)
       else Pivot.size (minor p)) in
  let flip := bool_decide (Pivot.header (minor p) = "Algorithm") in
  set_confidence_ncol_flip confidence ncol flip p.

(** Lines 133-140. *)
Definition openDevice (p : RPlot) : RPlot :=
  let p := file_write
             (nl +:+ "# Open output device" +:+ nl +:+
              suffix p +:+ "(" +:+ dq +:+ basename p +:+ "." +:+ suffix p +:+ dq +:+
              (if bool_decide (suffix p ≠ "pdf") then ", width=800, height=800" else "") +:+
              ")" +:+ nl) p in
  file_write (nl +:+ "# Write figures" +:+ nl) p.

(** Lines 92-109: the state in which the classification loop starts. *)
Definition readFiles (files : list string) (p : RPlot) : result RPlot :=
  first <- at_ "files" files 0 ;;
  let p := set_pivotHeaders (getPivots first true) p in
  let p := set_pivotItems (replicate (length (pivotHeaders p)) ∅) p in
  foldM readFile files p.

Definition classify (p : RPlot) : result RPlot :=
  foldM classifyPivot (seq 0 (length (pivotItems p))) p.

(** Lines 76-89: the destination is parsed, the script is opened and its
    first statements are written. *)
Definition RPlot_open (env : Env) (destination : File.t) : result RPlot :=
  let fileInfo := File.name destination in
  let basename := QFileInfo_path fileInfo +:+ "/" +:+ QFileInfo_completeBaseName fileInfo in
  let suffix := QFileInfo_suffix fileInfo in
  let suffix := if bool_decide (suffix = "") then "pdf" else suffix in
  let fileName := basename +:+ ".R" in
  if negb (QFile_open env fileName) then
    qFatal ("Failed to open " +:+ fileName +:+ " for writing.")
  else
  let p := RPlot_members basename suffix fileName in
  let p := file_write
             ("source(" +:+ dq +:+ sdkPath env +:+ "/share/openbr/plotting/plot_utils.R" +:+
              dq +:+ ")" +:+ nl +:+ nl) p in
  Ok (file_write ("# Read CSVs" +:+ nl +:+ "data <- NULL" +:+ nl) p).

Definition RPlot_ctor (env : Env) (files : list string) (destination : File.t)
  : result RPlot :=
  if bool_decide (files = []) then qFatal "Empty file list." else
  let files := qSort sortFiles files in
  p <- RPlot_open env destination ;;
  p <- readFiles files p ;;
  p <- classify p ;;
  Ok (openDevice (smoothAndOrder destination p)).

(** *** [RPlot::qplot(geom, data, flipY, opts)] *)

(** The error-bar overlay of line 150. *)
Definition geom_errorbar (data : string) (flipY : bool) : string :=
  " + geom_errorbar(data=" +:+ data +:+ "[seq(1, NROW(" +:+ data +:+ "), by = 29),], aes(x=X, ymin=" +:+
  (if flipY then "(1-lower), ymax=(1-upper)" else "lower, ymax=upper") +:+
  "), width=0.1, alpha=I(1/2))".

(** Condition under which line 150 adds the overlay. *)
Definition errorbar_shown (p : RPlot) (data : string) : bool :=
  (Pivot.smooth (major p) || Pivot.smooth (minor p))
  && float_ne_0 (confidence p) && bool_decide (data ≠ "CMC").

(** An axis scale, lines 153-154 for [axis = "x"], [side = "b"] and lines
    155-156 for [axis = "y"], [side = "l"]. *)
Definition axis_scale (opts : File.t) (axis side : string) : string :=
  if File.getBool opts (axis +:+ "Log") then
    " + scale_" +:+ axis +:+ "_log10(labels=" +:+
    File.get_or File.to_QString opts (axis +:+ "Labels")
      ("trans_format(" +:+ dq +:+ "log10" +:+ dq +:+ ", math_format())") +:+
    ", breaks=" +:+ File.get_or File.to_QString opts (axis +:+ "Breaks") "waiver()" +:+
    ") + annotation_logticks(sides=" +:+ dq +:+ side +:+ dq +:+ ")"
  else
    " + scale_" +:+ axis +:+ "_continuous(labels=" +:+
    File.get_or File.to_QString opts (axis +:+ "Labels") "percent" +:+
    ", breaks=" +:+ File.get_or File.to_QString opts (axis +:+ "Breaks") "pretty_breaks(n=10)" +:+
    ")".

(** The operands of the sum of [QString]s of lines 145-161, in order. *)
Definition qplot_operands (env : Env) (p : RPlot) (geom data : string) (flipY : bool)
    (opts : File.t) : result (list string) :=
  size <- (if File.contains opts "size"
           then s <- File.get File.to_QString opts "size" ;; Ok (", size=I(" +:+ s +:+ ")")
           else Ok "") ;;
  xTitle <- File.get File.to_QString opts "xTitle" ;;
  yTitle <- File.get File.to_QString opts "yTitle" ;;
  legendPosition <- (if File.contains opts "legendPosition"
                     then pt <- File.get File.to_QPointF opts "legendPosition" ;;
                          Ok ("c" +:+ QtUtils_toString env pt)
                     else Ok "'bottom'") ;;
  let zero := S754_zero false in
  let textSize :=
    QString_number env (File.get_or File.to_float opts "textSize" (float_of_int 12)) in
  Ok [
    "qplot(X, " +:+ (if flipY then "1-Y" else "Y") +:+ ", data=" +:+ data +:+
      ", geom=" +:+ dq +:+ geom +:+ dq +:+
      ", main=" +:+ dq +:+ File.get_or File.to_QString opts "title" "" +:+ dq;
    size;
    (if (Pivot.size (major p) >? 1)%Z
     then ", colour=factor(" +:+ Pivot.header (major p) +:+ ")" else "");
    (if (Pivot.size (minor p) >? 1)%Z
     then ", linetype=factor(" +:+ Pivot.header (minor p) +:+ ")" else "");
    ", xlab=" +:+ dq +:+ xTitle +:+ dq +:+ ", ylab=" +:+ dq +:+ yTitle +:+ dq +:+
      ") + theme_minimal()";
    (if errorbar_shown p data then geom_errorbar data flipY else "");
    (if (Pivot.size (major p) >? 1)%Z
     then getScale "colour" (Pivot.header (major p)) (Pivot.size (major p)) else "");
    (if (Pivot.size (minor p) >? 1)%Z
     then " + scale_linetype_discrete(" +:+ dq +:+ Pivot.header (minor p) +:+ dq +:+ ")"
     else "");
    axis_scale opts "x" "b";
    axis_scale opts "y" "l";
    (if File.contains opts "xLimits"
     then " + xlim" +:+ QtUtils_toString env (File.get_or File.to_QPointF opts "xLimits" (zero, zero))
     else "");
    (if File.contains opts "yLimits"
     then " + ylim" +:+ QtUtils_toString env (File.get_or File.to_QPointF opts "yLimits" (zero, zero))
     else "");
    " + theme(legend.title = element_text(size = " +:+ textSize +:+
      "), legend.text = element_text(size = " +:+ textSize +:+
      "), plot.title = element_text(size = " +:+ textSize +:+
      "), axis.text = element_text(size = " +:+ textSize +:+
      "), axis.title.x = element_text(size = " +:+ textSize +:+
      "), axis.title.y = element_text(size = " +:+ textSize +:+ "),";
    " legend.position=" +:+ legendPosition +:+
      ", legend.background = element_rect(fill = 'white'), panel.grid.major = element_line(colour = " +:+
      dq +:+ "gray" +:+ dq +:+ "), panel.grid.minor = element_line(colour = " +:+
      dq +:+ "gray" +:+ dq +:+ ", linetype = " +:+ dq +:+ "dashed" +:+ dq +:+ "))";
    " + guides(col=guide_legend(ncol=" +:+ pretty (ncol p) +:+ "))" +:+ nl +:+ nl
  ].

Definition qplot (env : Env) (p : RPlot) (geom data : string) (flipY : bool)
    (opts : File.t) : result RPlot :=
  operands <- qplot_operands env p geom data flipY opts ;;
  Ok (file_write (String.concat "" operands) p).

(** *** The option overrides of [Plot], lines 203-216 *)

(** Body of [foreach (const QString &option, options)], lines 212-214. *)
Definition setOption (opts : File.t) (option : string) : result File.t :=
  let words := QtUtils_parse option "=" in
  words_0 <- at_ "words" words 0 ;;
  _ <- QtUtils_checkArgsSize words_0 words 1 2 ;;
  words_1 <- at_ "words" words 1 ;;
  Ok (File.set words_0 (QV_String words_1) opts).

(** [QMap::keys()]: the keys in ascending order. *)
Definition QMap_keys {V} (m : gmap string V) : list string :=
  merge_sort String.le (elements (dom m)).

(** [foreach (const QString &key, optMap.keys())], lines 209-216. *)
Definition overrideOptions (destination : File.t) (optMap : gmap string File.t)
  : result (gmap string File.t) :=
  foldM (fun optMap key =>
           let options := File.get_or File.to_QStringList destination key [] in
           foldM (fun optMap option =>
                    opts <- setOption (default (File.of_options []) (optMap !! key)) option ;;
                    Ok (<[key := opts]> optMap))
                 options optMap)
        (QMap_keys optMap) optMap.

(** The defaults of lines 203-207. *)
Definition Plot_optMap : gmap string File.t :=
  <["cmcOptions" := File.of_options
      [("xTitle", "Rank"); ("yTitle", "Retrieval Rate"); ("xLog", "true"); ("yLog", "false");
       ("size", "1"); ("xLabels", "c(1,5,10,50,100)"); ("xBreaks", "c(1,5,10,50,100)")]]>
  (<["ietOptions" := File.of_options
      [("xTitle", "False Positive Identification Rate (FPIR)");
       ("yTitle", "False Negative Identification Rate (FNIR)");
       ("xLog", "true"); ("yLog", "true")]]>
  (<["detOptions" := File.of_options
      [("xTitle", "False Accept Rate"); ("yTitle", "False Reject Rate");
       ("xLog", "true"); ("yLog", "true")]]>
  (<["rocOptions" := File.of_options
      [("xTitle", "False Accept Rate"); ("yTitle", "True Accept Rate");
       ("xLog", "true"); ("yLog", "false")]]> ∅))).

Definition Plot_options (destination : File.t) : result (gmap string File.t) :=
  overrideOptions destination Plot_optMap.

(** ** A sample environment and sample inputs *)

(** Prints the values that are integers in decimal. *)
Definition number_sample (x : spec_float) : string :=
  match x with
  | S754_zero _ => "0"
  | S754_finite s m e =>
      (if s then "-" else "") +:+
      (if (0 <=? e)%Z then pretty (Z.pos m * 2 ^ e)%Z
       else if (Z.pos m mod 2 ^ (- e) =? 0)%Z then pretty (Z.pos m / 2 ^ (- e))%Z
       else "?")
  | S754_infinity s => if s then "-inf" else "inf"
  | S754_nan => "nan"
  end.

Definition env_sample : Env :=
  {| sdkPath := "/opt/openbr";
     QFile_open := fun _ => true;
     QString_number := number_sample;
     QtUtils_toString :=
       fun pt => "(" +:+ number_sample (fst pt) +:+ "," +:+ number_sample (snd pt) +:+ ")" |}.

Definition destination_sample : File.t :=
  {| File.name := "out/plot.pdf"; File.m_metadata := ∅ |}.

(** ** Vocabulary of the statements *)

(** The two kinds of scale among which [getScale] chooses. *)
Definition scale_discrete (mode title : string) : string :=
  " + scale_" +:+ mode +:+ "_discrete(" +:+ dq +:+ title +:+ dq +:+ ")".

Definition scale_brewer (mode title palette : string) : string :=
  " + scale_" +:+ mode +:+ "_brewer(" +:+ dq +:+ title +:+ dq +:+ ", palette=" +:+
  dq +:+ palette +:+ dq +:+ ")".

(** The name of the script that the constructor opens. *)
Definition scriptName (destination : File.t) : string :=
  (QFileInfo_path (File.name destination) +:+ "/" +:+
   QFileInfo_completeBaseName (File.name destination)) +:+ ".R".

(** The header list [H] of a batch: the tokens of the directory name of
    the first file in sorted order. *)
Definition batchHeaders (files : list string) : list string :=
  match qSort sortFiles files with
  | [] => []
  | first :: _ => getPivots first true
  end.

(** A file follows the naming convention of a batch with [n] headers. *)
Definition followsConvention (n : nat) (fileName : string) : bool :=
  bool_decide (length (getPivots fileName false) = n).

(** Every file of the batch has as many tokens as there are headers. *)
Definition conventionHolds (files : list string) : bool :=
  forallb (followsConvention (length (batchHeaders files))) files.

(** ** Vocabulary of the loops, and sample inputs *)

(** Label sets only grow, and their number does not change. *)
Definition items_grow (items items' : list (gset string)) : Prop :=
  length items' = length items /\
  forall j s, items !! j = Some s -> exists s', items' !! j = Some s' /\ s ⊆ s'.

(** What the reading loops leave alone. *)
Definition same_pivots (p p' : RPlot) : Prop :=
  major p' = major p /\ minor p' = minor p /\
  basename p' = basename p /\ suffix p' = suffix p.

(** The token list that [readFile] records for a file, and whether it
    takes the fallback of lines 97-102. *)
Definition mismatch (p : RPlot) (fileName : string) : bool :=
  bool_decide (length (getPivots fileName false) ≠ length (pivotHeaders p)).

Definition recorded (p : RPlot) (fileName : string) : list string :=
  if mismatch p fileName then [QFileInfo_completeBaseName fileName]
  else getPivots fileName false.

(** The loop invariant: there is at least one header, and no more headers
    than label sets. *)
Definition headers_fit (p : RPlot) : Prop :=
  1 <= length (pivotHeaders p) <= length (pivotItems p).

(** The members when the loop over the files starts, lines 92-93. *)
Definition startState (first : string) (p : RPlot) : RPlot :=
  set_pivotItems (replicate (length (getPivots first true)) ∅)
    (set_pivotHeaders (getPivots first true) p).

(** Two algorithms, two splits, in a directory named after the two
    dimensions. *)
Definition files_scenario_A : list string :=
  ["Algorithm_Split/alg1_0.csv"; "Algorithm_Split/alg2_0.csv"; "Algorithm_Split/alg1_1.csv"].

(** Two headers; the second base name has a single token. *)
Definition files_late_mismatch : list string := ["A_B/x_1.csv"; "A_B/y.csv"].

(** A destination whose ROC overrides hold the bare name [xLog]. *)
Definition destination_bare_xLog : File.t :=
  {| File.name := "out/plot.pdf";
     File.m_metadata := {[ "rocOptions" := QV_StringList ["xLog"] ]} |}.

(** An operand is told apart from the error-bar overlay by its first five
    characters. *)
Definition not_overlay (o : string) : Prop :=
  o = "" \/ String.prefix " + ge" o = false.

(** A destination that smooths over [Split], with the given confidence. *)
Definition destination_smooth (confidence : Z) : File.t :=
  {| File.name := "out/plot.pdf";
     File.m_metadata :=
       {[ "smooth" := QV_String "Split"; "confidence" := QV_Int confidence ]} |}.

(** The options of the ROC chart when nothing is overridden. *)
Definition rocOptions_default : File.t :=
  default (File.of_options []) (Plot_optMap !! "rocOptions").

(** Scenario A classified with [smooth=Split] and the given confidence. *)
Definition rplot_smooth (confidence : Z) : RPlot :=
  match RPlot_ctor env_sample files_scenario_A (destination_smooth confidence) with
  | inr p => p
  | inl _ => RPlot_members "" "" ""
  end.

(** One header; the second base name has two tokens. *)
Definition files_single_header : list string := ["D/a.csv"; "D/b_c.csv"].

(** ** Further functions of plot.cpp *)

(** [QString::contains(needle)] *)
Fixpoint QString_contains (needle s : string) : bool :=
  String.prefix needle s ||
  match s with
  | "" => false
  | String _ s' => QString_contains needle s'
  end.

(** What the detection report reads from the disk: the contents of a file
    ([None] when [QFile::open(ReadOnly)] fails), and the conversion
    [File(const QString &)] of openbr_plugin.h, which is not among the
    sources and is kept abstract. *)
Record Disk : Type := {
  QFile_readAll : string -> option string;
  File_init : string -> File.t
}.

(** The loop of lines 291-298; [rocCnt] never exceeds 2. *)
Fixpoint singlePointLoop (lines : list string) (rocCnt : Z) : bool :=
  match lines with
  | [] => true
  | line :: lines' =>
      let rocCnt := if QString_contains "DiscreteROC" line then (rocCnt + 1)%Z else rocCnt in
      if (rocCnt >? 1)%Z then false else singlePointLoop lines' rocCnt
  end.

Definition fileHasSinglePoint (disk : Disk) (evalFile : string) : result bool :=
  match QFile_readAll disk evalFile with
  | None => qFatal ("Failed to open " +:+ evalFile +:+ " for reading.")
  | Some contents => Ok (singlePointLoop (QString_split "010" contents) 0)
  end.

Fixpoint filesHaveSinglePoint (disk : Disk) (files : list string) : result bool :=
  match files with
  | [] => Ok false
  | file :: files' =>
      single <- fileHasSinglePoint disk (File.name (File_init disk file)) ;;
      if single then Ok true else filesHaveSinglePoint disk files'
  end.

(** The outcome of [QtUtils::runRScript] on a script. *)
Record Runtime : Type := {
  runRScript : QFile -> bool
}.

(** [RPlot::finalize(show)]: the closed plot, the result, and the file
    handed to [QtUtils::showFile], if any. *)
Definition finalize (rt : Runtime) (p : RPlot) (show : bool)
  : RPlot * bool * option string :=
  let p := file_write ("dev.off()" +:+ nl) p in
  let p := if bool_decide (suffix p ≠ "pdf")
           then file_write ("unlink(" +:+ dq +:+ basename p +:+ "." +:+ suffix p +:+ dq +:+ ")") p
           else p in
  let success := runRScript rt (file p) in
  (p, success, if success && show then Some (basename p +:+ "." +:+ suffix p) else None).

(** The statement of line 469 for one column. *)
Definition violinStatement (header column : string) : string :=
  "qplot(" +:+ header +:+ ", " +:+ column +:+ ", data=data, geom=" +:+ dq +:+ "violin" +:+ dq +:+
  ", fill=" +:+ header +:+ ") + coord_flip() + theme_minimal()" +:+ nl +:+
  "ggsave(" +:+ dq +:+ column +:+ ".pdf" +:+ dq +:+ ")" +:+ nl.

Definition PlotMetadata (env : Env) (rt : Runtime) (files : list string)
    (columns : string) (show : bool) : result (RPlot * bool * option string) :=
  p <- RPlot_ctor env files {| File.name := "PlotMetadata"; File.m_metadata := ∅ |} ;;
  let p := fold_left (fun p column => file_write (violinStatement (Pivot.header (major p)) column) p)
                     (QString_split ";" columns) p in
  Ok (finalize rt p show).

(** Number of lines of a file that mention [DiscreteROC]. *)
Definition rocLines (contents : string) : nat :=
  length (List.filter (QString_contains "DiscreteROC") (QString_split "010" contents)).

(** Every override entry that [overrideOptions] reads has a name and a
    value. *)
Definition overridesWellFormed (destination : File.t) (optMap : gmap string File.t) : Prop :=
  forall key option,
    key ∈ dom optMap ->
    option ∈ File.get_or File.to_QStringList destination key [] ->
    length (QtUtils_parse option "=") = 2.

(** A disk with two evaluation files. *)
Definition disk_sample : Disk :=
  {| QFile_readAll := fun f =>
       if bool_decide (f = "one.csv") then Some ("Plot,X,Y" +:+ nl +:+ "DiscreteROC,1,2" +:+ nl)
       else if bool_decide (f = "two.csv")
       then Some ("DiscreteROC,1,2" +:+ nl +:+ "DiscreteROC,3,4" +:+ nl)
       else None;
     File_init := fun f => {| File.name := f; File.m_metadata := ∅ |} |}.

(** ** Vocabulary of the further properties *)

(** Number of occurrences of a character in a string. *)
Fixpoint occurrences (c : ascii) (s : string) : nat :=
  match s with
  | "" => 0
  | String c' s' => (if Ascii.eqb c' c then 1 else 0) + occurrences c s'
  end.

(** The string that [getPivots] cuts into tokens. *)
Definition pivotSource (file : string) (headers : bool) : string :=
  if headers then QDir_dirName (QFileInfo_path file) else QFileInfo_completeBaseName file.

(** [pv] is the selection among the label sets of index below [k], the
    index [excl] left aside: no such set is larger than [pv], and unless
    [pv] is still default-constructed it records the index, size and
    header of a non-empty set that is strictly larger than every
    admissible set before it. *)
Definition selected (items : list (gset string)) (hdrs : list string)
    (k : nat) (excl : Z) (pv : Pivot.t) : Prop :=
  (forall j s, j < k -> Z.of_nat j <> excl -> items !! j = Some s ->
               (Z.of_nat (size s) <= Pivot.size pv)%Z) /\
  (pv = Pivot.default \/
   exists i s h,
     i < k /\ Z.of_nat i <> excl /\ items !! i = Some s /\ hdrs !! i = Some h /\
     pv = Pivot.make (Z.of_nat i) (Z.of_nat (size s)) h /\ 1 <= size s /\
     forall j t, j < i -> Z.of_nat j <> excl -> items !! j = Some t -> size t < size s).

(** Scenario A when the classification loop starts. *)
Definition rplot_read_sample : RPlot :=
  match bind (RPlot_open env_sample destination_sample)
             (readFiles (qSort sortFiles files_scenario_A)) with
  | inr p => p
  | inl _ => RPlot_members "" "" ""
  end.

(** The statements that the constructor writes for one file when the
    naming convention holds: the file is read, one column per header is
    set to the file's token, the rows are appended. *)
Definition columnStatement (header pivot : string) : string :=
  "tmp$" +:+ header +:+ " <- " +:+ dq +:+ pivot +:+ dq +:+ nl.

Definition readStatement (fileName : string) : string :=
  QString_replace backslash "\\" ("tmp <- read.csv(" +:+ dq +:+ fileName +:+ dq +:+ ")" +:+ nl).

Definition loadStatements (headers : list string) (fileName : string) : list string :=
  [readStatement fileName] ++
  zip_with columnStatement headers (getPivots fileName false) ++
  ["data <- rbind(data, tmp)" +:+ nl].

(** The first two statements of every script. *)
Definition preambleStatements (env : Env) : list string :=
  ["source(" +:+ dq +:+ sdkPath env +:+ "/share/openbr/plotting/plot_utils.R" +:+
   dq +:+ ")" +:+ nl +:+ nl;
   "# Read CSVs" +:+ nl +:+ "data <- NULL" +:+ nl].

(** Base name and suffix of the rendered artifact. *)
Definition destBasename (destination : File.t) : string :=
  QFileInfo_path (File.name destination) +:+ "/" +:+
  QFileInfo_completeBaseName (File.name destination).

Definition destSuffix (destination : File.t) : string :=
  if bool_decide (QFileInfo_suffix (File.name destination) = "") then "pdf"
  else QFileInfo_suffix (File.name destination).

(** The two statements that end the constructor's part of the script. *)
Definition deviceStatements (destination : File.t) : list string :=
  [nl +:+ "# Open output device" +:+ nl +:+
   destSuffix destination +:+ "(" +:+ dq +:+ destBasename destination +:+ "." +:+
   destSuffix destination +:+ dq +:+
   (if bool_decide (destSuffix destination ≠ "pdf") then ", width=800, height=800" else "") +:+
   ")" +:+ nl;
   nl +:+ "# Write figures" +:+ nl].

(** The label sets [items'] are the sets [items] with, at each index [j]
    from [k] to [k + m - 1], the token [pivots[j]] added. *)
Definition items_add (k m : nat) (pivots : list string)
    (items items' : list (gset string)) : Prop :=
  length items' = length items /\
  forall j s, items !! j = Some s ->
    exists s', items' !! j = Some s' /\
      forall x, x ∈ s' <-> x ∈ s \/ (k <= j < k + m /\ pivots !! j = Some x).

(** Lines 122 and 124 (or 123 and 125) on one pivot: it is marked as
    smoothed when [smooth] is not empty, equals its header, and it has
    more than one label; a smoothed pivot gets the size 1. *)
Definition smoothOne (smooth : string) (pv : Pivot.t) : Pivot.t :=
  let b := negb (bool_decide (smooth = "")) && bool_decide (Pivot.header pv = smooth)
           && (Pivot.size pv >? 1)%Z in
  if b then Pivot.set_size 1 (Pivot.set_smooth true pv) else Pivot.set_smooth false pv.

(** A destination that overrides [xLog] of the ROC chart. *)
Definition destination_xLog_false : File.t :=
  {| File.name := "out/plot.png";
     File.m_metadata := {[ "rocOptions" := QV_StringList ["xLog=false"] ]} |}.

(** The destination of the metadata report, line 467. *)
Definition destination_PlotMetadata : File.t :=
  {| File.name := "PlotMetadata"; File.m_metadata := ∅ |}.

(** A runtime in which the script always runs through. *)
Definition runtime_sample : Runtime := {| runRScript := fun _ => true |}.

(** ** Basic facts *)

Lemma bind_Ok {A B} (c : result A) (k : A -> result B) (b : B) :
  bind c k = Ok b -> exists a, c = Ok a /\ k a = Ok b.
Proof. destruct c as [e|a]; simpl; [discriminate | eauto]. Qed.

Lemma bind_ret {A B} (a : A) (k : A -> result B) : bind (Ok a) k = k a.
Proof. reflexivity. Qed.

Lemma at_lookup {A} (container : string) (l : list A) (i : nat) (x : A) :
  l !! i = Some x -> at_ container l i = Ok x.
Proof. unfold at_. now intros ->. Qed.

Lemma at_out_of_range {A} (container : string) (l : list A) (i : nat) :
  length l <= i -> at_ container l i = inl (IndexOutOfRange container i (length l)).
Proof. intros Hi. unfold at_. now rewrite (lookup_ge_None_2 l i Hi). Qed.

Lemma QString_split_length (sep : ascii) (s : string) :
  1 <= length (QString_split sep s).
Proof.
  induction s as [|c s IH]; simpl; [lia|].
  destruct (Ascii.eqb c sep); simpl; [lia|].
  destruct (QString_split sep s); simpl; lia.
Qed.

Lemma QString_split_single (sep : ascii) (s : string) :
  length (QString_split sep s) = 1 -> QString_split sep s = [s].
Proof.
  induction s as [|c s IH]; simpl; [reflexivity|].
  destruct (Ascii.eqb c sep); simpl.
  - pose proof (QString_split_length sep s). lia.
  - pose proof (QString_split_length sep s) as Hpos.
    destruct (QString_split sep s) as [|tok rest]; simpl in *; [lia|].
    intros Hlen. destruct rest; [|discriminate].
    specialize (IH eq_refl). now inversion IH.
Qed.

Lemma getPivots_length (file : string) (headers : bool) :
  1 <= length (getPivots file headers).
Proof. apply QString_split_length. Qed.

(** *** Sorting *)

Lemma sortFiles_le (a b : string) : sortFiles b a = false <-> String.le a b.
Proof.
  unfold sortFiles, String.le, String.ltb, String.leb.
  rewrite (String.compare_antisym b a).
  destruct (String.compare a b); simpl; naive_solver.
Qed.

#[local] Instance sortFiles_transitive : Transitive (fun a b => sortFiles b a = false).
Proof.
  intros a b c Hab Hbc. apply sortFiles_le. apply sortFiles_le in Hab, Hbc.
  now transitivity b.
Qed.

#[local] Instance sortFiles_antisymm : AntiSymm (=) (fun a b => sortFiles b a = false).
Proof.
  intros a b Hab Hba. apply sortFiles_le in Hab, Hba.
  now apply (anti_symm String.le).
Qed.

#[local] Instance sortFiles_total : Total (fun a b => sortFiles b a = false).
Proof.
  intros a b. destruct (total String.le a b); [left|right]; now apply sortFiles_le.
Qed.

Lemma qSort_Permutation (files : list string) : qSort sortFiles files ≡ₚ files.
Proof. apply merge_sort_Permutation. Qed.

Lemma qSort_Sorted (files : list string) :
  Sorted (fun a b => sortFiles b a = false) (qSort sortFiles files).
Proof. apply (Sorted_merge_sort _). Qed.

Lemma qSort_perm_eq (files files' : list string) :
  files ≡ₚ files' -> qSort sortFiles files = qSort sortFiles files'.
Proof.
  intros Hp.
  apply (Sorted_unique (fun a b => sortFiles b a = false)); try apply qSort_Sorted.
  now rewrite !qSort_Permutation.
Qed.

Lemma qSort_idempotent (files : list string) :
  qSort sortFiles (qSort sortFiles files) = qSort sortFiles files.
Proof. apply qSort_perm_eq, qSort_Permutation. Qed.

Lemma qSort_nil_iff (files : list string) : qSort sortFiles files = [] <-> files = [].
Proof.
  split.
  - intros H. apply Permutation_nil_r. rewrite <- H. symmetry. apply qSort_Permutation.
  - intros ->. reflexivity.
Qed.

(** *** The functions on sample inputs *)

Example getPivots_directory :
  getPivots "results/Algorithm_Split/alg1_0.csv" true = ["Algorithm"; "Split"].
Proof. reflexivity. Qed.

Example getPivots_baseName :
  getPivots "results/Algorithm_Split/alg1_0.csv" false = ["alg1"; "0"].
Proof. reflexivity. Qed.

Example getPivots_no_underscore : getPivots "A_B/y.csv" false = ["y"].
Proof. reflexivity. Qed.

Example confidence_default : div_100 (float_of_int 95) = S754_finite false 15938355 (-24).
Proof. reflexivity. Qed.

Example confidence_zero : float_ne_0 (div_100 (float_of_int 0)) = false.
Proof. reflexivity. Qed.

(** Scenario A: two dimensions with two labels each; the tie keeps
    [Algorithm], met first, as [major]. *)
Example scenario_A_classification :
  exists p, RPlot_ctor env_sample files_scenario_A destination_sample = Ok p /\
    pivotHeaders p = ["Algorithm"; "Split"] /\
    major p = Pivot.make 0 2 "Algorithm" /\
    minor p = Pivot.make 1 2 "Split" /\
    ncol p = 2%Z /\ flip p = false.
Proof. eexists. repeat apply conj; vm_compute; reflexivity. Qed.

(** A mismatch on the first file already: the later files only add their
    base names to the first label set, the others stay empty, and the
    classification ends on the single dimension. *)
Example first_file_mismatch_classifies :
  exists p, RPlot_ctor env_sample ["A_B/x.csv"; "A_B/y.csv"] destination_sample = Ok p /\
    pivotHeaders p = ["File"] /\
    pivotItems p = [ {[ "x"; "y" ]}; ∅ ] /\
    major p = Pivot.make 0 2 "File" /\
    minor p = Pivot.default.
Proof. eexists. repeat apply conj; vm_compute; reflexivity. Qed.

(** ** The loop over the files, lines 94-109 *)

Lemma items_grow_refl (items : list (gset string)) : items_grow items items.
Proof. split; [reflexivity|]. intros j s Hj. exists s. split; [assumption|set_solver]. Qed.

Lemma items_grow_trans (a b c : list (gset string)) :
  items_grow a b -> items_grow b c -> items_grow a c.
Proof.
  intros [Hl1 H1] [Hl2 H2]. split; [congruence|].
  intros j s Hj. destruct (H1 j s Hj) as (s1 & Hj1 & Hs1).
  destruct (H2 j s1 Hj1) as (s2 & Hj2 & Hs2).
  exists s2. split; [assumption|set_solver].
Qed.

Lemma items_grow_insert (items : list (gset string)) (i : nat) (s : gset string) (x : string) :
  items !! i = Some s -> items_grow items (<[i := {[x]} ∪ s]> items).
Proof.
  intros Hi. split; [apply length_insert|].
  intros j t Hj. destruct (decide (i = j)) as [->|Hne].
  - exists ({[x]} ∪ s). split.
    + apply list_lookup_insert_eq. now apply lookup_lt_Some in Hi.
    + assert (t = s) as -> by congruence. set_solver.
  - exists t. split; [now rewrite list_lookup_insert_ne|set_solver].
Qed.

Lemma same_pivots_refl (p : RPlot) : same_pivots p p.
Proof. repeat split. Qed.

Lemma same_pivots_trans (p q r : RPlot) :
  same_pivots p q -> same_pivots q r -> same_pivots p r.
Proof. unfold same_pivots. intuition congruence. Qed.

Lemma readPivot_step (pivots : list string) (p : RPlot) (i : nat)
    (s : gset string) (x h : string) :
  pivotItems p !! i = Some s -> pivots !! i = Some x -> pivotHeaders p !! i = Some h ->
  exists p', readPivot pivots p i = Ok p' /\
    pivotHeaders p' = pivotHeaders p /\
    pivotItems p' = <[i := {[x]} ∪ s]> (pivotItems p) /\
    same_pivots p p'.
Proof.
  intros Hs Hx Hh. unfold readPivot.
  rewrite (at_lookup _ _ _ _ Hs). simpl. rewrite (at_lookup _ _ _ _ Hx). simpl.
  rewrite (at_lookup _ _ _ _ Hh). simpl.
  eexists. split; [reflexivity|]. repeat split.
Qed.

Lemma readPivots_spec (pivots : list string) (m : nat) :
  forall (k : nat) (p : RPlot),
    k + m <= length pivots ->
    k + m <= length (pivotHeaders p) ->
    k + m <= length (pivotItems p) ->
    exists p', foldM (readPivot pivots) (seq k m) p = Ok p' /\
      pivotHeaders p' = pivotHeaders p /\
      same_pivots p p' /\
      items_grow (pivotItems p) (pivotItems p') /\
      (forall j x, k <= j < k + m -> pivots !! j = Some x ->
                   exists s', pivotItems p' !! j = Some s' /\ x ∈ s').
Proof.
  induction m as [|m IH]; intros k p Hp Hh Hi; simpl.
  - exists p. split; [reflexivity|]. split; [reflexivity|].
    split; [apply same_pivots_refl|]. split; [apply items_grow_refl|].
    intros j x Hj. exfalso. lia.
  - destruct (lookup_lt_is_Some_2 pivots k) as [x Hx]; [lia|].
    destruct (lookup_lt_is_Some_2 (pivotHeaders p) k) as [h Hhk]; [lia|].
    destruct (lookup_lt_is_Some_2 (pivotItems p) k) as [s Hs]; [lia|].
    destruct (readPivot_step pivots p k s x h Hs Hx Hhk) as (p1 & E1 & Hh1 & Hi1 & Hsame1).
    rewrite E1. simpl.
    destruct (IH (S k) p1) as (p' & E' & Hh' & Hsame' & Hgrow' & Hmem').
    { lia. } { rewrite Hh1. lia. } { rewrite Hi1, length_insert. lia. }
    exists p'. split; [exact E'|]. split; [congruence|].
    split; [eapply same_pivots_trans; eassumption|].
    assert (Hgrow1 : items_grow (pivotItems p) (pivotItems p1)).
    { rewrite Hi1. now apply items_grow_insert. }
    split; [eapply items_grow_trans; eassumption|].
    intros j y Hj Hy. destruct (decide (j = k)) as [->|Hne].
    + rewrite Hx in Hy. inversion Hy; subst y.
      destruct Hgrow' as [_ Hg].
      destruct (Hg k ({[x]} ∪ s)) as (s' & Hs' & Hsub).
      { rewrite Hi1. apply list_lookup_insert_eq. now apply lookup_lt_Some in Hs. }
      exists s'. split; [assumption|].
      apply Hsub, elem_of_union_l. now apply elem_of_singleton.
    + apply Hmem'; [lia|assumption].
Qed.

Lemma readFile_spec (p : RPlot) (fileName : string) :
  1 <= length (pivotHeaders p) <= length (pivotItems p) ->
  exists p', readFile p fileName = Ok p' /\
    pivotHeaders p' = (if mismatch p fileName then ["File"] else pivotHeaders p) /\
    same_pivots p p' /\
    items_grow (pivotItems p) (pivotItems p') /\
    (forall j x, recorded p fileName !! j = Some x ->
                 exists s', pivotItems p' !! j = Some s' /\ x ∈ s').
Proof.
  intros [Hh Hi]. unfold readFile. fold (mismatch p fileName).
  fold (recorded p fileName).
  set (p1 := file_write _ _).
  assert (Hlen : length (recorded p fileName) = length (pivotHeaders p1)).
  { unfold recorded, p1, mismatch. case_bool_decide as Hm; simpl; [reflexivity|].
    destruct (decide (length (getPivots fileName false) = length (pivotHeaders p)));
      [assumption|contradiction]. }
  assert (Hitems1 : pivotItems p1 = pivotItems p).
  { unfold p1. destruct (mismatch p fileName); reflexivity. }
  assert (Hhdr1 : pivotHeaders p1 = if mismatch p fileName then ["File"] else pivotHeaders p).
  { unfold p1. destruct (mismatch p fileName); reflexivity. }
  assert (Hsame1 : same_pivots p p1).
  { unfold p1. destruct (mismatch p fileName); repeat split. }
  assert (Hle : length (pivotHeaders p1) <= length (pivotItems p1)).
  { rewrite Hhdr1, Hitems1. destruct (mismatch p fileName); simpl; lia. }
  destruct (readPivots_spec (recorded p fileName) (length (recorded p fileName)) 0 p1)
    as (p2 & E2 & Hh2 & Hsame2 & Hgrow2 & Hmem2); [lia..|].
  rewrite E2. simpl. eexists. split; [reflexivity|]. simpl.
  split; [congruence|].
  split; [eapply same_pivots_trans; eassumption|].
  rewrite <- Hitems1. split; [assumption|].
  intros j x Hj. apply Hmem2; [|assumption].
  apply lookup_lt_Some in Hj. lia.
Qed.

Lemma readFile_fit (p p' : RPlot) (fileName : string) :
  headers_fit p ->
  pivotHeaders p' = (if mismatch p fileName then ["File"] else pivotHeaders p) ->
  items_grow (pivotItems p) (pivotItems p') ->
  headers_fit p'.
Proof.
  unfold headers_fit. intros [H1 H2] -> [Hlen _]. rewrite Hlen.
  destruct (mismatch p fileName); simpl; lia.
Qed.

Lemma readFiles_total (l : list string) :
  forall p, headers_fit p ->
    exists p', foldM readFile l p = Ok p' /\ headers_fit p' /\
      same_pivots p p' /\ items_grow (pivotItems p) (pivotItems p').
Proof.
  induction l as [|f l IH]; intros p Hfit; simpl.
  - exists p. repeat split; try apply Hfit. apply items_grow_refl.
  - destruct (readFile_spec p f Hfit) as (p1 & E1 & Hh1 & Hsame1 & Hgrow1 & _).
    rewrite E1. simpl.
    destruct (IH p1) as (p' & E' & Hfit' & Hsame' & Hgrow').
    { eapply readFile_fit; eassumption. }
    exists p'. split; [assumption|]. split; [assumption|].
    split; [eapply same_pivots_trans|eapply items_grow_trans]; eassumption.
Qed.

Lemma mismatch_headers (p q : RPlot) (fileName : string) :
  pivotHeaders q = pivotHeaders p -> mismatch q fileName = mismatch p fileName.
Proof. unfold mismatch. now intros ->. Qed.

Lemma readFiles_consistent (l : list string) :
  forall p p', headers_fit p ->
    (forall f, f ∈ l -> mismatch p f = false) ->
    foldM readFile l p = Ok p' ->
    pivotHeaders p' = pivotHeaders p.
Proof.
  induction l as [|f l IH]; intros p p' Hfit Hall; simpl.
  - intros [= ->]. reflexivity.
  - destruct (readFile_spec p f Hfit) as (p1 & E1 & Hh1 & Hsame1 & Hgrow1 & _).
    rewrite E1. simpl. intros E'.
    rewrite (Hall f) in Hh1 by (apply list_elem_of_here).
    rewrite <- Hh1. apply IH; [| |assumption].
    + eapply readFile_fit; [eassumption| |eassumption].
      rewrite (Hall f) by (apply list_elem_of_here). assumption.
    + intros g Hg. rewrite (mismatch_headers p p1 g Hh1).
      apply Hall. now apply list_elem_of_further.
Qed.

Lemma readFiles_fallback (n : nat) (l : list string) :
  forall p p', headers_fit p ->
    pivotHeaders p = ["File"] \/ length (pivotHeaders p) = n ->
    pivotHeaders p = ["File"] \/ (exists f, f ∈ l /\ followsConvention n f = false) ->
    foldM readFile l p = Ok p' ->
    pivotHeaders p' = ["File"].
Proof.
  induction l as [|f l IH]; intros p p' Hfit Hn Hex; simpl.
  - intros [= ->]. destruct Hex as [H|(f & Hf & _)]; [assumption|].
    now apply elem_of_nil in Hf.
  - destruct (readFile_spec p f Hfit) as (p1 & E1 & Hh1 & Hsame1 & Hgrow1 & _).
    rewrite E1. simpl.
    assert (Hfit1 : headers_fit p1) by (eapply readFile_fit; eassumption).
    destruct (mismatch p f) eqn:Hm.
    { apply IH; auto. }
    destruct Hn as [HF|Hn].
    { apply IH; auto; left; congruence. }
    apply IH; [assumption|right; congruence|].
    destruct Hex as [HF|(g & Hg & Hconv)]; [left; congruence|].
    right. exists g. split; [|assumption].
    apply elem_of_cons in Hg as [->|Hg]; [|assumption].
    exfalso. unfold mismatch in Hm. unfold followsConvention in Hconv.
    apply bool_decide_eq_false in Hm, Hconv. apply Hm. intros Heq. apply Hconv. congruence.
Qed.

(** ** The classification loop, lines 111-119 *)

Lemma classifyPivot_ok (p : RPlot) (i : nat) :
  i < length (pivotItems p) -> i < length (pivotHeaders p) ->
  exists p', classifyPivot p i = Ok p' /\
    pivotHeaders p' = pivotHeaders p /\ pivotItems p' = pivotItems p /\
    basename p' = basename p /\ suffix p' = suffix p /\ file p' = file p.
Proof.
  intros Hi Hh.
  destruct (lookup_lt_is_Some_2 _ _ Hi) as [s Hs].
  destruct (lookup_lt_is_Some_2 _ _ Hh) as [h Hhd].
  unfold classifyPivot. rewrite (at_lookup _ _ _ _ Hs). simpl.
  destruct (_ >? _)%Z.
  - simpl. rewrite (at_lookup _ _ _ _ Hhd). simpl. eexists. split; [reflexivity|]. repeat split.
  - destruct (_ >? _)%Z.
    + rewrite (at_lookup _ _ _ _ Hhd). simpl. eexists. split; [reflexivity|]. repeat split.
    + eexists. split; [reflexivity|]. repeat split.
Qed.

Lemma classify_loop_ok (m : nat) :
  forall (k : nat) (p : RPlot),
    k + m <= length (pivotItems p) -> k + m <= length (pivotHeaders p) ->
    exists p', foldM classifyPivot (seq k m) p = Ok p' /\
      pivotHeaders p' = pivotHeaders p /\ pivotItems p' = pivotItems p /\
      basename p' = basename p /\ suffix p' = suffix p /\ file p' = file p.
Proof.
  induction m as [|m IH]; intros k p Hi Hh; simpl.
  - exists p. repeat split.
  - destruct (classifyPivot_ok p k) as (p1 & E1 & Hh1 & Hi1 & Hb1 & Hs1 & Hf1); [lia..|].
    rewrite E1. simpl.
    destruct (IH (S k) p1) as (p' & E' & Hh' & Hi' & Hb' & Hs' & Hf'); [rewrite ?Hi1, ?Hh1; lia..|].
    exists p'. split; [assumption|]. repeat split; congruence.
Qed.

Lemma classify_ok (p : RPlot) :
  length (pivotHeaders p) = length (pivotItems p) ->
  exists p', classify p = Ok p' /\
    pivotHeaders p' = pivotHeaders p /\ pivotItems p' = pivotItems p /\
    basename p' = basename p /\ suffix p' = suffix p /\ file p' = file p.
Proof. intros Hlen. apply classify_loop_ok; lia. Qed.

(** With a single header and a second label set that is not empty, the
    loop reads [pivotHeaders[1]]. *)
Lemma classify_overrun (p : RPlot) (h : string) (s0 s1 : gset string)
    (rest : list (gset string)) :
  pivotHeaders p = [h] -> pivotItems p = s0 :: s1 :: rest ->
  1 <= size s1 ->
  major p = Pivot.default -> minor p = Pivot.default ->
  classify p = inl (IndexOutOfRange "pivotHeaders" 1 1).
Proof.
  intros Hh Hi Hs1 Hmaj Hmin. unfold classify. rewrite Hi. simpl.
  assert (Hpos : (Z.of_nat (size s1) >? 0)%Z = true) by (apply Z.gtb_lt; lia).
  unfold classifyPivot at 1. rewrite Hi, Hmaj, Hmin. simpl.
  destruct (Z.of_nat (size s0) >? 0)%Z eqn:E0; simpl.
  - rewrite Hh. simpl. unfold classifyPivot. simpl. rewrite Hi, Hh. simpl.
    destruct (Z.of_nat (size s1) >? Z.of_nat (size s0))%Z; simpl; [reflexivity|].
    rewrite Hpos. reflexivity.
  - unfold classifyPivot. rewrite Hi, Hmaj, Hmin. simpl.
    rewrite Hpos. simpl. rewrite Hh. reflexivity.
Qed.

(** ** The constructor as a whole *)

Lemma RPlot_open_ok (env : Env) (destination : File.t) :
  QFile_open env (scriptName destination) = true ->
  exists p, RPlot_open env destination = Ok p /\
    major p = Pivot.default /\ minor p = Pivot.default.
Proof.
  intros Hopen. unfold RPlot_open. unfold scriptName in Hopen. rewrite Hopen. simpl.
  eexists. split; [reflexivity|]. split; reflexivity.
Qed.

Lemma RPlot_open_default (env : Env) (destination : File.t) (p : RPlot) :
  RPlot_open env destination = Ok p ->
  major p = Pivot.default /\ minor p = Pivot.default.
Proof.
  unfold RPlot_open. destruct (negb _); [discriminate|].
  intros [= <-]. split; reflexivity.
Qed.

Lemma RPlot_ctor_inv (env : Env) (files : list string) (destination : File.t) (p : RPlot) :
  RPlot_ctor env files destination = Ok p ->
  exists q, p = openDevice (smoothAndOrder destination q).
Proof.
  unfold RPlot_ctor. case_bool_decide; [discriminate|].
  intros Hr. apply bind_Ok in Hr as (p0 & _ & Hr).
  apply bind_Ok in Hr as (p1 & _ & Hr). apply bind_Ok in Hr as (p2 & _ & Hr).
  exists p2. now inversion Hr.
Qed.

Lemma readFiles_cons (first : string) (rest : list string) (p : RPlot) :
  readFiles (first :: rest) p = foldM readFile (first :: rest) (startState first p).
Proof. reflexivity. Qed.

Lemma startState_fit (first : string) (p : RPlot) : headers_fit (startState first p).
Proof.
  unfold headers_fit, startState. simpl. rewrite length_replicate.
  pose proof (getPivots_length first true). lia.
Qed.

Lemma smoothAndOrder_ordered (destination : File.t) (p : RPlot) :
  (Pivot.size (minor (openDevice (smoothAndOrder destination p)))
   <= Pivot.size (major (openDevice (smoothAndOrder destination p))))%Z.
Proof.
  unfold smoothAndOrder. cbn.
  repeat match goal with
         | |- context [if ?b then _ else _] => destruct b eqn:?; cbn
         end;
  repeat match goal with
         | H : (_ <? _)%Z = true |- _ => apply Z.ltb_lt in H
         | H : (_ <? _)%Z = false |- _ => apply Z.ltb_ge in H
         end; cbn in *; lia.
Qed.

Lemma smoothAndOrder_ncol (destination : File.t) (p : RPlot) :
  let r := openDevice (smoothAndOrder destination p) in
  ncol r =
  File.get_or File.to_int destination "ncol"
    (if (Pivot.size (major r) >? 1)%Z then Pivot.size (major r)
     else if bool_decide (Pivot.header (minor r) = "") then Pivot.size (major r)
     else Pivot.size (minor r)).
Proof. reflexivity. Qed.

Lemma smoothAndOrder_pivots (destination : File.t) (p : RPlot) :
  pivotHeaders (openDevice (smoothAndOrder destination p)) = pivotHeaders p /\
  pivotItems (openDevice (smoothAndOrder destination p)) = pivotItems p.
Proof.
  unfold smoothAndOrder. cbn.
  repeat match goal with
         | |- context [if ?b then _ else _] => destruct b; cbn
         end; split; reflexivity.
Qed.

Lemma conventionHolds_sorted (files : list string) (first : string) (rest : list string) :
  qSort sortFiles files = first :: rest ->
  conventionHolds files = true ->
  forall f, f ∈ first :: rest ->
    length (getPivots f false) = length (getPivots first true).
Proof.
  intros Hsort Hconv f Hf. unfold conventionHolds, batchHeaders in Hconv.
  rewrite Hsort in Hconv. rewrite forallb_forall in Hconv.
  assert (Hin : f ∈ files) by (rewrite <- (qSort_Permutation files), Hsort; exact Hf).
  apply list_elem_of_In in Hin. specialize (Hconv f Hin).
  unfold followsConvention in Hconv. now apply bool_decide_eq_true in Hconv.
Qed.

(** When every file follows the convention the constructor returns, with
    the headers of the batch. *)
Lemma RPlot_ctor_convention_ok (env : Env) (files : list string) (destination : File.t) :
  files <> [] -> conventionHolds files = true ->
  QFile_open env (scriptName destination) = true ->
  exists p, RPlot_ctor env files destination = Ok p /\
    pivotHeaders p = batchHeaders files /\
    length (pivotItems p) = length (batchHeaders files).
Proof.
  intros Hne Hconv Hopen. unfold RPlot_ctor.
  rewrite bool_decide_eq_false_2 by assumption.
  pose proof (conventionHolds_sorted files) as Hall. unfold batchHeaders.
  destruct (qSort sortFiles files) as [|first rest] eqn:Hsort.
  { exfalso. apply Hne. now apply qSort_nil_iff. }
  specialize (Hall first rest eq_refl Hconv).
  destruct (RPlot_open_ok env destination Hopen) as (p0 & E0 & _).
  cbn zeta. rewrite E0. rewrite bind_ret. rewrite readFiles_cons.
  pose proof (startState_fit first p0) as Hfit0.
  destruct (readFiles_total (first :: rest) _ Hfit0) as (p1 & E1 & Hfit1 & _ & Hgrow).
  rewrite E1. rewrite bind_ret.
  assert (Hh1 : pivotHeaders p1 = getPivots first true).
  { apply (readFiles_consistent (first :: rest) _ p1 Hfit0); [|assumption].
    intros f Hf. unfold mismatch. apply bool_decide_eq_false. intros Hm. apply Hm.
    now apply Hall. }
  assert (Hi1 : length (pivotItems p1) = length (getPivots first true)).
  { destruct Hgrow as [-> _]. unfold startState. simpl. apply length_replicate. }
  destruct (classify_ok p1) as (p2 & E2 & Hh2 & Hi2 & _); [congruence|].
  rewrite E2. rewrite bind_ret. eexists. split; [reflexivity|].
  destruct (smoothAndOrder_pivots destination p2) as [-> ->]. split; congruence.
Qed.

(** ** Properties *)

(** C2. After the classification (selection of the two largest label
    sets, smoothing, swap) the size of [major] is at least the size of
    [minor]; and for a non-empty batch that follows the naming convention
    the constructor does return, provided the script can be opened. *)
Theorem major_size_ge_minor_size (env : Env) (files : list string) (destination : File.t) :
  (forall p, RPlot_ctor env files destination = Ok p ->
             (Pivot.size (minor p) <= Pivot.size (major p))%Z) /\
  (files <> [] -> conventionHolds files = true ->
   QFile_open env (scriptName destination) = true ->
   exists p, RPlot_ctor env files destination = Ok p).
Proof.
  split.
  - intros p Hp. apply RPlot_ctor_inv in Hp as [q ->].
    exact (smoothAndOrder_ordered destination q).
  - intros Hne Hconv Hopen.
    destruct (RPlot_ctor_convention_ok env files destination Hne Hconv Hopen) as (p & Hp & _).
    now exists p.
Qed.

Lemma major_size_ge_minor_size_witness :
  exists p, RPlot_ctor env_sample files_scenario_A destination_sample = Ok p /\
            (Pivot.size (minor p) <= Pivot.size (major p))%Z.
Proof.
  destruct (major_size_ge_minor_size env_sample files_scenario_A destination_sample)
    as [Hord Hret].
  destruct Hret as [p Hp]; [discriminate|reflexivity|reflexivity|].
  exists p. split; [exact Hp|exact (Hord p Hp)].
Defined.

(** C8. [ncol] is the caller's ["ncol"] when the destination carries one;
    otherwise it is the size of [major] if that is greater than 1,
    otherwise the size of [minor] if the header of [minor] is not empty,
    otherwise the size of [major]. *)
Theorem ncol_rule (env : Env) (files : list string) (destination : File.t) (p : RPlot) :
  RPlot_ctor env files destination = Ok p ->
  (forall n, File.m_metadata destination !! "ncol" = Some (QV_Int n) -> ncol p = n) /\
  (File.m_metadata destination !! "ncol" = None ->
   ncol p = if (Pivot.size (major p) >? 1)%Z then Pivot.size (major p)
            else if bool_decide (Pivot.header (minor p) ≠ "") then Pivot.size (minor p)
            else Pivot.size (major p)).
Proof.
  intros Hp. apply RPlot_ctor_inv in Hp as [q ->].
  rewrite (smoothAndOrder_ncol destination q). unfold File.get_or. split.
  - intros n ->. reflexivity.
  - intros ->. destruct (_ >? _)%Z; [reflexivity|].
    repeat case_bool_decide; congruence.
Qed.

Lemma ncol_rule_witness :
  exists p, RPlot_ctor env_sample files_scenario_A destination_sample = Ok p /\
            ncol p = Pivot.size (major p) /\ ncol p = 2%Z.
Proof.
  eexists. split; [vm_compute; reflexivity|].
  split; [|reflexivity].
  refine (proj2 (ncol_rule env_sample files_scenario_A destination_sample _ _) _);
    vm_compute; reflexivity.
Defined.

(** C9. The constructor sorts its input first, so its whole outcome (and
    with it [major], [minor], [ncol], [flip] and [confidence]) is the same
    for every permutation of the batch, and sorting the batch beforehand
    changes nothing; for a non-empty batch that follows the naming
    convention this outcome is a classification. *)
Theorem classification_order_independent (env : Env) (files files' : list string)
    (destination : File.t) :
  files ≡ₚ files' ->
  RPlot_ctor env files' destination = RPlot_ctor env files destination /\
  RPlot_ctor env (qSort sortFiles files) destination = RPlot_ctor env files destination /\
  (files <> [] -> conventionHolds files = true ->
   QFile_open env (scriptName destination) = true ->
   exists p, RPlot_ctor env files destination = Ok p /\
             RPlot_ctor env files' destination = Ok p /\
             RPlot_ctor env (qSort sortFiles files) destination = Ok p).
Proof.
  intros Hperm.
  assert (Hinv : forall l l', l ≡ₚ l' ->
            RPlot_ctor env l' destination = RPlot_ctor env l destination).
  { intros l l' Hp. unfold RPlot_ctor. rewrite (qSort_perm_eq l l' Hp).
    destruct l as [|a l], l' as [|a' l']; try reflexivity.
    - now apply Permutation_nil_cons in Hp.
    - symmetry in Hp. now apply Permutation_nil_cons in Hp. }
  assert (Hsorted : RPlot_ctor env (qSort sortFiles files) destination
                    = RPlot_ctor env files destination).
  { apply Hinv. symmetry. apply qSort_Permutation. }
  split; [now apply Hinv|]. split; [exact Hsorted|].
  intros Hne Hconv Hopen.
  destruct (RPlot_ctor_convention_ok env files destination Hne Hconv Hopen) as (p & Hp & _).
  exists p. rewrite Hsorted, (Hinv files files' Hperm). auto.
Qed.

Lemma classification_order_independent_witness :
  exists p,
    RPlot_ctor env_sample files_scenario_A destination_sample = Ok p /\
    RPlot_ctor env_sample (reverse files_scenario_A) destination_sample = Ok p.
Proof.
  destruct (classification_order_independent env_sample files_scenario_A
              (reverse files_scenario_A) destination_sample) as (_ & _ & H).
  { symmetry. apply reverse_Permutation. }
  destruct H as (p & H1 & H2 & _); [discriminate|reflexivity|reflexivity|].
  exists p. split; assumption.
Defined.

(** C10. When the directory name of the first sorted file gives at least
    two headers, that file follows the convention and a later file does
    not, the loop over the files ends with the single header ["File"]
    while [pivotItems] still has one label set per original header; the
    classification loop then reads [pivotHeaders[1]], outside the list. *)
Theorem fallback_indexes_past_headers (env : Env) (files : list string)
    (destination : File.t) (first : string) (rest : list string) (p0 : RPlot) :
  qSort sortFiles files = first :: rest ->
  2 <= length (getPivots first true) ->
  followsConvention (length (getPivots first true)) first = true ->
  (exists f, f ∈ rest /\ followsConvention (length (getPivots first true)) f = false) ->
  RPlot_open env destination = Ok p0 ->
  (exists p, readFiles (first :: rest) p0 = Ok p /\
             pivotHeaders p = ["File"] /\
             length (pivotItems p) = length (getPivots first true) /\
             classify p = inl (IndexOutOfRange "pivotHeaders" 1 1)) /\
  RPlot_ctor env files destination = inl (IndexOutOfRange "pivotHeaders" 1 1).
Proof.
  intros Hsort HH Hfirst Hlater Hopen.
  set (n := length (getPivots first true)) in *.
  assert (Hloop : exists p, readFiles (first :: rest) p0 = Ok p /\
             pivotHeaders p = ["File"] /\ length (pivotItems p) = n /\
             classify p = inl (IndexOutOfRange "pivotHeaders" 1 1)).
  { rewrite readFiles_cons.
    pose proof (startState_fit first p0) as Hfit0.
    destruct (readFiles_total (first :: rest) _ Hfit0) as (p & E & Hfit & Hsame & Hgrow).
    exists p. split; [exact E|].
    assert (Hfile : pivotHeaders p = ["File"]).
    { apply (readFiles_fallback n (first :: rest) _ p Hfit0); [right; reflexivity| |exact E].
      right. destruct Hlater as (f & Hf & Hconv). exists f.
      split; [now apply list_elem_of_further|assumption]. }
    split; [exact Hfile|].
    (* the first file follows the convention: it leaves a label in every set *)
    simpl in E.
    destruct (readFile_spec _ first Hfit0) as (p1 & E1 & Hh1 & Hsame1 & Hgrow1 & Hmem1).
    rewrite E1, bind_ret in E.
    pose proof (readFile_fit _ p1 first Hfit0 Hh1 Hgrow1) as Hfit1.
    destruct (readFiles_total rest p1 Hfit1) as (p' & E' & _ & Hsame' & Hgrow').
    rewrite E in E'. injection E' as <-.
    assert (Hrec : recorded (startState first p0) first = getPivots first false).
    { unfold recorded, mismatch. rewrite bool_decide_eq_false_2; [reflexivity|].
      intros Hm. apply Hm. unfold followsConvention in Hfirst.
      apply bool_decide_eq_true in Hfirst. exact Hfirst. }
    rewrite Hrec in Hmem1.
    assert (Hlen1 : length (pivotItems p1) = n).
    { destruct Hgrow1 as [-> _]. unfold startState. simpl. apply length_replicate. }
    assert (Hlen : length (pivotItems p) = n) by (destruct Hgrow' as [-> _]; exact Hlen1).
    split; [exact Hlen|].
    assert (Htok : exists x, getPivots first false !! 1 = Some x).
    { apply lookup_lt_is_Some_2. unfold followsConvention in Hfirst.
      apply bool_decide_eq_true in Hfirst. lia. }
    destruct Htok as [x Hx]. destruct (Hmem1 1 x Hx) as (s1 & Hs1 & Hx1).
    destruct Hgrow' as [_ Hg]. destruct (Hg 1 s1 Hs1) as (t1 & Ht1 & Hsub).
    destruct (pivotItems p) as [|t0 [|t1' items]] eqn:Hitems; try discriminate.
    simpl in Ht1. injection Ht1 as ->.
    apply (classify_overrun p "File" t0 t1 items Hfile Hitems).
    - assert (Hin : x ∈ t1) by (apply Hsub; exact Hx1).
      destruct (decide (size t1 = 0)) as [Hz|Hnz]; [|lia].
      apply size_empty_inv in Hz. rewrite Hz in Hin.
      now apply not_elem_of_empty in Hin.
    - destruct Hsame' as (-> & _). destruct Hsame1 as (-> & _).
      unfold startState. simpl. now apply (RPlot_open_default env destination).
    - destruct Hsame' as (_ & -> & _). destruct Hsame1 as (_ & -> & _).
      unfold startState. simpl. now apply (RPlot_open_default env destination). }
  split; [exact Hloop|].
  destruct Hloop as (p & E & _ & _ & Hc).
  unfold RPlot_ctor. rewrite bool_decide_eq_false_2.
  - cbn zeta. rewrite Hsort, Hopen, bind_ret, E, bind_ret, Hc. reflexivity.
  - intros ->. discriminate.
Qed.

Lemma fallback_indexes_past_headers_witness :
  RPlot_ctor env_sample files_late_mismatch destination_sample
  = inl (IndexOutOfRange "pivotHeaders" 1 1).
Proof.
  refine (proj2 (fallback_indexes_past_headers env_sample files_late_mismatch
                   destination_sample "A_B/x_1.csv" ["A_B/y.csv"] _ _ _ _ _ _)).
  - vm_compute. reflexivity.
  - vm_compute. lia.
  - vm_compute. reflexivity.
  - exists "A_B/y.csv". split; [apply list_elem_of_here|vm_compute; reflexivity].
  - vm_compute. reflexivity.
Defined.

(** C1. The batch [A_B/x_1.csv], [A_B/y.csv]: the second base name has one
    token where the directory name has two.  The headers are replaced by
    ["File"], but the label sets filled by the first file stay: there are
    still two of them, the first holds [x] and [y] rather than the base
    names [x_1] and [y], and the constructor stops in the classification
    loop instead of classifying on the single dimension. *)
Theorem late_mismatch_keeps_earlier_labels :
  exists p0 p,
    RPlot_open env_sample destination_sample = Ok p0 /\
    readFiles (qSort sortFiles files_late_mismatch) p0 = Ok p /\
    pivotHeaders p = ["File"] /\
    pivotItems p = [ {[ "x"; "y" ]}; {[ "1" ]} ] /\
    RPlot_ctor env_sample files_late_mismatch destination_sample
    = inl (IndexOutOfRange "pivotHeaders" 1 1).
Proof.
  eexists. eexists.
  repeat apply conj; vm_compute; reflexivity.
Qed.

(** C4. [getScale] chooses by [vals] alone: above 12 the plain discrete
    scale, at 12 the palette Set3, at 10 and 11 the palette Paired, up to
    9 the palette Set1. *)
Theorem getScale_table (mode title : string) (v : Z) :
  ((12 < v)%Z -> getScale mode title v = scale_discrete mode title) /\
  (v = 12%Z -> getScale mode title v = scale_brewer mode title "Set3") /\
  (v = 10%Z \/ v = 11%Z -> getScale mode title v = scale_brewer mode title "Paired") /\
  ((v <= 9)%Z -> getScale mode title v = scale_brewer mode title "Set1").
Proof.
  unfold getScale, scale_discrete, scale_brewer.
  destruct (Z.gtb_spec v 12); destruct (Z.gtb_spec v 11); destruct (Z.gtb_spec v 9);
    repeat split; intros; try reflexivity; lia.
Qed.

Lemma getScale_table_witness :
  getScale "colour" "Algorithm" 13 = scale_discrete "colour" "Algorithm" /\
  getScale "colour" "Algorithm" 12 = scale_brewer "colour" "Algorithm" "Set3" /\
  getScale "colour" "Algorithm" 11 = scale_brewer "colour" "Algorithm" "Paired" /\
  getScale "colour" "Algorithm" 9 = scale_brewer "colour" "Algorithm" "Set1".
Proof.
  split; [apply (getScale_table "colour" "Algorithm" 13); lia|].
  split; [apply (getScale_table "colour" "Algorithm" 12); reflexivity|].
  split; [apply (getScale_table "colour" "Algorithm" 11); right; reflexivity|].
  apply (getScale_table "colour" "Algorithm" 9); lia.
Defined.

(** C5, as stated, fails at 12: the scale chosen there is not the one
    with the palette Paired. *)
Lemma getScale_12_not_Paired :
  getScale "colour" "Algorithm" 12 <> scale_brewer "colour" "Algorithm" "Paired".
Proof. vm_compute. discriminate. Qed.

(** C5, amended. At the boundaries: 9 gives Set1, 10 gives Paired, 12
    gives Set3, 13 gives the plain discrete scale. *)
Theorem getScale_boundaries (mode title : string) :
  getScale mode title 9 = scale_brewer mode title "Set1" /\
  getScale mode title 10 = scale_brewer mode title "Paired" /\
  getScale mode title 12 = scale_brewer mode title "Set3" /\
  getScale mode title 13 = scale_discrete mode title.
Proof. repeat split. Qed.

(** An override with a single token passes the size check and then fails
    at [words[1]]. *)
Lemma setOption_bare_name (opts : File.t) (option : string) :
  length (QtUtils_parse option "=") = 1 ->
  setOption opts option = inl (IndexOutOfRange "words" 1 1).
Proof.
  intros Hlen. unfold setOption.
  destruct (QtUtils_parse option "=") as [|w [|w' ws]]; try discriminate.
  reflexivity.
Qed.

(** An override with two tokens sets the key to the value. *)
Lemma setOption_key_value (opts : File.t) (option key value : string) :
  QtUtils_parse option "=" = [key; value] ->
  setOption opts option = Ok (File.set key (QV_String value) opts).
Proof. intros Hw. unfold setOption. rewrite Hw. reflexivity. Qed.

(** An override with more than two tokens is fatal. *)
Lemma setOption_too_many (opts : File.t) (option : string) :
  2 < length (QtUtils_parse option "=") ->
  exists msg, setOption opts option = inl (Fatal msg).
Proof.
  intros Hlen. unfold setOption.
  destruct (QtUtils_parse option "=") as [|w [|w' [|w'' ws]]]; simpl in Hlen; try lia.
  eexists. reflexivity.
Qed.

(** C6. ["xLog=true"] sets [xLog] to true and ["a=b=c"] is a fatal arity
    error naming [a]; the bare name ["xLog"] passes the size check of
    line 213 and then fails at [words[1]] on line 214, in [setOption] and
    so in the overrides of [Plot]. *)
Theorem bare_name_override_out_of_range :
  (exists opts, setOption (File.of_options []) "xLog=true" = Ok opts /\
                File.getBool opts "xLog" = true) /\
  setOption (File.of_options []) "a=b=c"
  = inl (Fatal "a expects no more than 2 arguments, got 3") /\
  QtUtils_checkArgsSize "xLog" (QtUtils_parse "xLog" "=") 1 2 = Ok () /\
  setOption (File.of_options []) "xLog" = inl (IndexOutOfRange "words" 1 1) /\
  Plot_options destination_bare_xLog = inl (IndexOutOfRange "words" 1 1).
Proof.
  apply conj.
  { eexists. apply conj; vm_compute; reflexivity. }
  repeat apply conj; vm_compute; reflexivity.
Qed.

(** ** Chart declarations *)

Lemma errorbar_shown_iff (p : RPlot) (data : string) :
  errorbar_shown p data = true <->
  (Pivot.smooth (major p) = true \/ Pivot.smooth (minor p) = true) /\
  float_ne_0 (confidence p) = true /\ data <> "CMC".
Proof.
  unfold errorbar_shown.
  rewrite !andb_true_iff, orb_true_iff, bool_decide_eq_true. tauto.
Qed.

Lemma not_overlay_neq (o data : string) (flipY : bool) :
  not_overlay o -> o <> geom_errorbar data flipY.
Proof.
  intros [->|Hpre] Heq; [discriminate Heq|].
  rewrite Heq in Hpre. discriminate Hpre.
Qed.

Ltac by_prefix := solve [ left; reflexivity | right; reflexivity ].

Lemma getScale_not_overlay (mode title : string) (vals : Z) :
  not_overlay (getScale mode title vals).
Proof.
  unfold getScale. destruct (_ >? _)%Z; [by_prefix|].
  destruct (_ >? _)%Z; [by_prefix|]. destruct (_ >? _)%Z; by_prefix.
Qed.

Lemma axis_scale_not_overlay (opts : File.t) (axis side : string) :
  not_overlay (axis_scale opts axis side).
Proof. unfold axis_scale. destruct (File.getBool _ _); by_prefix. Qed.

(** The operands of a chart declaration: the colour, line-style and
    error-bar operands are at positions 2, 3 and 5, the two scales at 6
    and 7, and no other operand is the overlay. *)
Lemma qplot_operands_shape (env : Env) (p : RPlot) (geom data : string) (flipY : bool)
    (opts : File.t) (operands : list string) :
  qplot_operands env p geom data flipY opts = Ok operands ->
  exists o0 o1 o4 o8 o9 o10 o11 o12 o13 o14,
    operands =
      [o0; o1;
       (if (Pivot.size (major p) >? 1)%Z
        then ", colour=factor(" +:+ Pivot.header (major p) +:+ ")" else "");
       (if (Pivot.size (minor p) >? 1)%Z
        then ", linetype=factor(" +:+ Pivot.header (minor p) +:+ ")" else "");
       o4;
       (if errorbar_shown p data then geom_errorbar data flipY else "");
       (if (Pivot.size (major p) >? 1)%Z
        then getScale "colour" (Pivot.header (major p)) (Pivot.size (major p)) else "");
       (if (Pivot.size (minor p) >? 1)%Z
        then " + scale_linetype_discrete(" +:+ dq +:+ Pivot.header (minor p) +:+ dq +:+ ")"
        else "");
       o8; o9; o10; o11; o12; o13; o14] /\
    Forall not_overlay [o0; o1; o4; o8; o9; o10; o11; o12; o13; o14].
Proof.
  unfold qplot_operands. intros H.
  apply bind_Ok in H as (size & Hsize & H).
  apply bind_Ok in H as (xTitle & _ & H).
  apply bind_Ok in H as (yTitle & _ & H).
  apply bind_Ok in H as (legendPosition & _ & H).
  injection H as <-.
  do 10 eexists. split; [reflexivity|].
  assert (Hs : not_overlay size).
  { destruct (File.contains opts "size").
    - apply bind_Ok in Hsize as (s & _ & Hs). injection Hs as <-. by_prefix.
    - injection Hsize as <-. by_prefix. }
  repeat (apply Forall_cons; split);
    try apply Forall_nil; try exact Hs;
    try apply axis_scale_not_overlay;
    try (destruct flipY; by_prefix);
    try (match goal with |- context [File.contains ?f ?k] => destruct (File.contains f k) end;
         by_prefix);
    try by_prefix; try exact I.
Qed.

(** C3. The declaration that [qplot] writes is the concatenation of its
    operands, and the error-bar overlay is one of them exactly when
    [major] or [minor] is smoothed, [confidence] is not 0 and the relation
    is not ["CMC"]; with [confidence] equal to 0 it is never one. *)
Theorem errorbar_overlay_iff (env : Env) (p p' : RPlot) (geom data : string)
    (flipY : bool) (opts : File.t) :
  qplot env p geom data flipY opts = Ok p' ->
  exists operands,
    qplot_operands env p geom data flipY opts = Ok operands /\
    written (file p') = (written (file p) ++ [String.concat "" operands])%list /\
    (geom_errorbar data flipY ∈ operands <->
     (Pivot.smooth (major p) = true \/ Pivot.smooth (minor p) = true) /\
     float_ne_0 (confidence p) = true /\ data <> "CMC") /\
    (float_ne_0 (confidence p) = false -> geom_errorbar data flipY ∉ operands).
Proof.
  unfold qplot. intros H. apply bind_Ok in H as (operands & Hops & H).
  injection H as <-. exists operands. split; [exact Hops|]. split; [reflexivity|].
  assert (Hiff : geom_errorbar data flipY ∈ operands <-> errorbar_shown p data = true).
  { destruct (qplot_operands_shape _ _ _ _ _ _ _ Hops)
      as (o0 & o1 & o4 & o8 & o9 & o10 & o11 & o12 & o13 & o14 & -> & Hall).
    repeat match goal with
           | H : Forall _ (_ :: _) |- _ => apply Forall_cons in H as [?%(not_overlay_neq _ data flipY) H]
           end.
    pose proof (getScale_not_overlay "colour" (Pivot.header (major p)) (Pivot.size (major p)))
      as Hscale%(not_overlay_neq _ data flipY).
    rewrite !elem_of_cons, elem_of_nil.
    destruct (errorbar_shown p data).
    - intuition auto.
    - split; [|discriminate].
      destruct (_ >? _)%Z; destruct (_ >? _)%Z;
        intuition (try congruence; try discriminate). }
  rewrite Hiff. split; [apply errorbar_shown_iff|].
  intros Hzero Hin. apply errorbar_shown_iff in Hin as (_ & Hne & _). congruence.
Qed.

(** Scenario A with [smooth=Split]: at the default confidence the ROC
    declaration carries the overlay, at [confidence=0] it does not. *)
Lemma errorbar_overlay_iff_witness :
  exists ops95 ops0,
    qplot_operands env_sample (rplot_smooth 95) "line" "DET" true rocOptions_default
    = Ok ops95 /\
    geom_errorbar "DET" true ∈ ops95 /\
    qplot_operands env_sample (rplot_smooth 0) "line" "DET" true rocOptions_default
    = Ok ops0 /\
    geom_errorbar "DET" true ∉ ops0.
Proof.
  eassert (H95 : qplot env_sample (rplot_smooth 95) "line" "DET" true rocOptions_default
                 = Ok _) by (vm_compute; reflexivity).
  eassert (H0 : qplot env_sample (rplot_smooth 0) "line" "DET" true rocOptions_default
                = Ok _) by (vm_compute; reflexivity).
  destruct (errorbar_overlay_iff _ _ _ _ _ _ _ H95) as (ops95 & Hops95 & _ & Hiff & _).
  destruct (errorbar_overlay_iff _ _ _ _ _ _ _ H0) as (ops0 & Hops0 & _ & _ & Hzero).
  exists ops95, ops0.
  split; [exact Hops95|]. split.
  { apply Hiff. split; [right; reflexivity|]. split; [reflexivity|discriminate]. }
  split; [exact Hops0|]. apply Hzero. reflexivity.
Defined.

(** ** The fallback with a single header *)

Lemma getPivots_single (fileName : string) :
  length (getPivots fileName false) = 1 ->
  getPivots fileName false = [QFileInfo_completeBaseName fileName].
Proof. apply QString_split_single. Qed.

(** With one header and one label set, every file adds its base name. *)
Lemma readFile_single (p : RPlot) (fileName : string) (s : gset string) :
  length (pivotHeaders p) = 1 -> pivotItems p = [s] ->
  exists p', readFile p fileName = Ok p' /\
    pivotItems p' = [ {[QFileInfo_completeBaseName fileName]} ∪ s ] /\
    pivotHeaders p' = (if mismatch p fileName then ["File"] else pivotHeaders p) /\
    same_pivots p p'.
Proof.
  intros Hh Hi.
  assert (Hrec : recorded p fileName = [QFileInfo_completeBaseName fileName]).
  { unfold recorded, mismatch. case_bool_decide as Hm; [reflexivity|].
    apply getPivots_single. rewrite <- Hh.
    destruct (decide (length (getPivots fileName false) = length (pivotHeaders p)));
      [assumption|contradiction]. }
  unfold readFile. fold (mismatch p fileName). fold (recorded p fileName).
  rewrite Hrec. simpl.
  destruct (pivotHeaders p) as [|h [|h' hs]] eqn:Hhdr; try discriminate.
  unfold readPivot. destruct (mismatch p fileName); simpl; rewrite Hi; simpl.
  - eexists. split; [reflexivity|]. simpl. repeat split.
  - rewrite Hhdr. simpl. eexists. split; [reflexivity|]. simpl.
    split; [reflexivity|]. split; [exact Hhdr|]. repeat split.
Qed.

Lemma readFiles_single (l : list string) :
  forall (p : RPlot) (s : gset string),
    length (pivotHeaders p) = 1 -> pivotItems p = [s] ->
    exists p', foldM readFile l p = Ok p' /\
      pivotItems p' = [ list_to_set (QFileInfo_completeBaseName <$> l) ∪ s ] /\
      same_pivots p p'.
Proof.
  induction l as [|f l IH]; intros p s Hh Hi; simpl.
  - exists p. split; [reflexivity|]. split; [|apply same_pivots_refl].
    rewrite Hi. f_equal. now rewrite union_empty_l_L.
  - destruct (readFile_single p f s Hh Hi) as (p1 & E1 & Hi1 & Hh1 & Hsame1).
    rewrite E1, bind_ret.
    destruct (IH p1 ({[QFileInfo_completeBaseName f]} ∪ s)) as (p' & E' & Hi' & Hsame').
    { rewrite Hh1. destruct (mismatch p f); [reflexivity|assumption]. }
    { exact Hi1. }
    exists p'. split; [exact E'|]. split; [|eapply same_pivots_trans; eassumption].
    rewrite Hi'. f_equal.
    rewrite (comm_L (∪) {[QFileInfo_completeBaseName f]} (list_to_set _)).
    now rewrite <- (assoc_L (∪)).
Qed.

Lemma classify_single (p : RPlot) (h : string) (s : gset string) :
  pivotHeaders p = [h] -> pivotItems p = [s] -> 1 <= size s ->
  major p = Pivot.default -> minor p = Pivot.default ->
  classify p
  = Ok (set_major (Pivot.make 0 (Z.of_nat (size s)) h) (set_minor Pivot.default p)).
Proof.
  intros Hh Hi Hs Hmaj Hmin. unfold classify. rewrite Hi. simpl.
  unfold classifyPivot. rewrite Hi, Hmaj. simpl.
  assert (Hpos : (Z.of_nat (size s) >? 0)%Z = true) by (apply Z.gtb_lt; lia).
  rewrite Hpos. simpl. rewrite Hh. reflexivity.
Qed.

(** Smoothing and ordering when only [major] has been assigned. *)
Lemma smoothAndOrder_single (destination : File.t) (p : RPlot) (n : Z) (h : string) :
  major p = Pivot.make 0 n h -> minor p = Pivot.default -> (2 <= n)%Z ->
  let smooth := File.get_or File.to_QString destination "smooth" "" in
  let r := openDevice (smoothAndOrder destination p) in
  minor r = Pivot.default /\
  Pivot.header (major r) = h /\
  Pivot.size (major r)
  = (if negb (bool_decide (smooth = "")) && bool_decide (h = smooth) then 1 else n)%Z.
Proof.
  intros Hmaj Hmin Hn smooth r. subst r. unfold smoothAndOrder.
  fold smooth. cbn. rewrite Hmaj, Hmin. cbn.
  assert (Hgt : (n >? 1)%Z = true) by (apply Z.gtb_lt; lia).
  rewrite !andb_false_r, !Hgt, !andb_true_r.
  destruct (negb (bool_decide (smooth = "")) && bool_decide (h = smooth)); cbn;
    repeat match goal with
           | |- context [(?a <? ?b)%Z] => destruct (Z.ltb_spec a b); [lia|]; cbn
           end;
    repeat split.
Qed.

(** C7, as stated, fails: with the header list [D] and the mismatch on the
    second file the classifier does fall back to the single dimension
    ["File"], and the ROC declaration then carries the colour encoding
    bound to it, with its colour scale. *)
Lemma fallback_adds_colour_encoding :
  exists p operands,
    followsConvention (length (batchHeaders files_single_header)) "D/a.csv" = true /\
    followsConvention (length (batchHeaders files_single_header)) "D/b_c.csv" = false /\
    RPlot_ctor env_sample files_single_header destination_sample = Ok p /\
    pivotHeaders p = ["File"] /\
    qplot_operands env_sample p "line" "DET" true rocOptions_default = Ok operands /\
    operands !! 2 = Some ", colour=factor(File)" /\
    operands !! 6 = Some (scale_brewer "colour" "File" "Set1").
Proof.
  eexists. eexists.
  repeat apply conj; vm_compute; reflexivity.
Qed.

Lemma size_two_elements (s : gset string) (a b : string) :
  a <> b -> a ∈ s -> b ∈ s -> 2 <= size s.
Proof.
  intros Hne Ha Hb.
  assert (Hsub : ({[a]} ∪ {[b]} : gset string) ⊆ s).
  { intros x [Hx|Hx]%elem_of_union; apply elem_of_singleton in Hx; now subst. }
  apply subseteq_size in Hsub. rewrite size_union in Hsub.
  - rewrite !size_singleton in Hsub. exact Hsub.
  - intros x Hxa Hxb. apply elem_of_singleton in Hxa, Hxb. congruence.
Qed.

(** C7, amended. With a single header, the first sorted file following
    the convention and the second not, the constructor returns with the
    single dimension ["File"] whose labels are the base names of all the
    files; it is [major], and [minor] stays empty.  No chart declaration
    carries a line-style encoding or a line-style scale; the colour
    encoding bound to [File] is present unless [smooth] is ["File"]. *)
Theorem fallback_single_header (env : Env) (files : list string) (destination : File.t)
    (first second : string) (rest : list string) :
  qSort sortFiles files = first :: second :: rest ->
  length (getPivots first true) = 1 ->
  followsConvention 1 first = true ->
  followsConvention 1 second = false ->
  QFile_open env (scriptName destination) = true ->
  exists p,
    RPlot_ctor env files destination = Ok p /\
    pivotHeaders p = ["File"] /\
    pivotItems p = [list_to_set (QFileInfo_completeBaseName <$> first :: second :: rest)] /\
    Pivot.header (major p) = "File" /\
    minor p = Pivot.default /\
    forall geom data flipY opts operands,
      qplot_operands env p geom data flipY opts = Ok operands ->
      operands !! 3 = Some "" /\
      operands !! 7 = Some "" /\
      operands !! 2 =
        Some (if bool_decide (File.get_or File.to_QString destination "smooth" "" = "File")
              then "" else ", colour=factor(File)").
Proof.
  intros Hsort Hone Hfirst Hsecond Hopen.
  set (l := first :: second :: rest) in *.
  set (labels := list_to_set (QFileInfo_completeBaseName <$> l) : gset string).
  destruct (RPlot_open_ok env destination Hopen) as (p0 & E0 & Hmaj0 & Hmin0).
  (* the loop over the files *)
  assert (Hstart : pivotItems (startState first p0) = [∅]).
  { unfold startState. simpl. now rewrite Hone. }
  assert (Hstart1 : length (pivotHeaders (startState first p0)) = 1) by exact Hone.
  destruct (readFiles_single l _ ∅ Hstart1 Hstart) as (p1 & E1 & Hi1 & Hsame1).
  rewrite union_empty_r_L in Hi1. fold labels in Hi1.
  assert (Hh1 : pivotHeaders p1 = ["File"]).
  { apply (readFiles_fallback 1 l _ p1 (startState_fit first p0)); [right; exact Hone| |exact E1].
    right. exists second. split; [|exact Hsecond].
    apply list_elem_of_further, list_elem_of_here. }
  (* two distinct labels *)
  assert (Hsize : 2 <= size labels).
  { apply (size_two_elements labels (QFileInfo_completeBaseName first)
             (QFileInfo_completeBaseName second)).
    - intros Heq. unfold followsConvention, getPivots in Hfirst, Hsecond.
      apply bool_decide_eq_true in Hfirst. apply bool_decide_eq_false in Hsecond.
      apply Hsecond. rewrite <- Heq. exact Hfirst.
    - apply elem_of_list_to_set. simpl. apply list_elem_of_here.
    - apply elem_of_list_to_set. simpl. apply list_elem_of_further, list_elem_of_here. }
  (* the classification loop *)
  destruct Hsame1 as (Hmaj1 & Hmin1 & _).
  assert (E2 := classify_single p1 "File" labels Hh1 Hi1).
  rewrite Hmaj1, Hmin1 in E2. specialize (E2 ltac:(lia) Hmaj0 Hmin0).
  set (p2 := set_major _ _) in E2.
  destruct (smoothAndOrder_single destination p2 (Z.of_nat (size labels)) "File")
    as (Hminor & Hheader & Hmsize); [reflexivity|reflexivity|lia|].
  destruct (smoothAndOrder_pivots destination p2) as [Hh Hi].
  exists (openDevice (smoothAndOrder destination p2)).
  split.
  { unfold RPlot_ctor. rewrite bool_decide_eq_false_2.
    - cbn zeta. rewrite Hsort, E0, bind_ret. unfold l in *.
      rewrite readFiles_cons, E1, bind_ret, E2. reflexivity.
    - intros ->. discriminate. }
  split; [rewrite Hh; exact Hh1|]. split; [rewrite Hi; exact Hi1|].
  split; [exact Hheader|]. split; [exact Hminor|].
  intros geom data flipY opts operands Hops.
  destruct (qplot_operands_shape _ _ _ _ _ _ _ Hops)
    as (o0 & o1 & o4 & o8 & o9 & o10 & o11 & o12 & o13 & o14 & -> & _).
  rewrite Hminor, Hheader, Hmsize. cbn.
  split; [reflexivity|]. split; [reflexivity|]. f_equal.
  destruct (decide (File.get_or File.to_QString destination "smooth" "" = "File")) as [Hs|Hs].
  - rewrite Hs. reflexivity.
  - rewrite (bool_decide_eq_false_2 _ Hs).
    rewrite (bool_decide_eq_false_2 ("File" = _)) by congruence.
    rewrite andb_false_r.
    assert (Hgt : (Z.of_nat (size labels) >? 1)%Z = true) by (apply Z.gtb_lt; lia).
    unfold labels, l in Hgt. cbn in Hgt. rewrite Hgt. reflexivity.
Qed.

Lemma fallback_single_header_witness :
  exists p,
    RPlot_ctor env_sample files_single_header destination_sample = Ok p /\
    pivotHeaders p = ["File"] /\
    minor p = Pivot.default.
Proof.
  destruct (fallback_single_header env_sample files_single_header destination_sample
              "D/a.csv" "D/b_c.csv" [])
    as (p & Hp & Hh & _ & _ & Hminor & _).
  - vm_compute. reflexivity.
  - vm_compute. reflexivity.
  - vm_compute. reflexivity.
  - vm_compute. reflexivity.
  - reflexivity.
  - exists p. split; [exact Hp|]. split; [exact Hh|exact Hminor].
Defined.

(** ** Further properties: tokens and ordering *)

Lemma QString_split_join (sep : ascii) (s : string) :
  String.concat (String sep "") (QString_split sep s) = s.
Proof.
  induction s as [|c s IH]; [reflexivity|]. simpl.
  pose proof (QString_split_length sep s) as Hpos.
  destruct (Ascii.eqb_spec c sep) as [->|Hne].
  - destruct (QString_split sep s) as [|tok rest] eqn:E; [simpl in Hpos; lia|].
    rewrite <- IH. reflexivity.
  - destruct (QString_split sep s) as [|tok rest] eqn:E; [simpl in Hpos; lia|].
    rewrite <- IH. destruct rest; reflexivity.
Qed.

Lemma QString_split_count (sep : ascii) (s : string) :
  length (QString_split sep s) = S (occurrences sep s).
Proof.
  induction s as [|c s IH]; [reflexivity|]. simpl.
  destruct (Ascii.eqb c sep); simpl; [now rewrite IH|].
  destruct (QString_split sep s); simpl in *; [discriminate|exact IH].
Qed.

Lemma QString_split_tokens (sep : ascii) (s : string) :
  Forall (fun tok => occurrences sep tok = 0) (QString_split sep s).
Proof.
  induction s as [|c s IH]; simpl.
  - repeat constructor.
  - destruct (Ascii.eqb c sep) eqn:E.
    + constructor; [reflexivity|exact IH].
    + destruct (QString_split sep s) as [|tok rest]; [repeat constructor; simpl; now rewrite E|].
      apply Forall_cons in IH as [Htok Hrest].
      constructor; [simpl; now rewrite E|exact Hrest].
Qed.

(** X1. The tokens of [getPivots] contain no underscore, there is one more
    of them than there are underscores in the name they come from, and
    joining them with underscores gives that name back. *)
Theorem getPivots_round_trip (file : string) (headers : bool) :
  String.concat "_" (getPivots file headers) = pivotSource file headers /\
  length (getPivots file headers) = S (occurrences "_" (pivotSource file headers)) /\
  Forall (fun tok => occurrences "_" tok = 0) (getPivots file headers).
Proof.
  unfold getPivots. fold (pivotSource file headers).
  split; [apply QString_split_join|].
  split; [apply QString_split_count|apply QString_split_tokens].
Qed.

Lemma sortFiles_lt_compare (a b : string) :
  sortFiles a b = true <-> String.compare a b = Lt.
Proof. unfold sortFiles, String.ltb. destruct (String.compare a b); naive_solver. Qed.

(** X2. [sortFiles] is a strict total order on file names: no name comes
    before itself, the relation is transitive, and of two different names
    exactly one comes before the other. *)
Theorem sortFiles_strict_total_order :
  (forall a, sortFiles a a = false) /\
  (forall a b c, sortFiles a b = true -> sortFiles b c = true -> sortFiles a c = true) /\
  (forall a b, sortFiles a b = true -> sortFiles b a = false) /\
  (forall a b, a <> b -> sortFiles a b = true \/ sortFiles b a = true).
Proof.
  assert (Hirr : forall a, sortFiles a a = false).
  { intros a. apply sortFiles_le. reflexivity. }
  assert (Hasym : forall a b, sortFiles a b = true -> sortFiles b a = false).
  { intros a b Hab. apply sortFiles_lt_compare in Hab.
    unfold sortFiles, String.ltb. rewrite String.compare_antisym, Hab. reflexivity. }
  assert (Htot : forall a b, a <> b -> sortFiles a b = true \/ sortFiles b a = true).
  { intros a b Hne. destruct (sortFiles a b) eqn:Hab; [now left|right].
    destruct (sortFiles b a) eqn:Hba; [reflexivity|exfalso].
    apply Hne. apply (anti_symm String.le); now apply sortFiles_le. }
  repeat apply conj; try assumption.
  intros a b c Hab Hbc.
  destruct (sortFiles a c) eqn:Hac; [reflexivity|exfalso].
  apply sortFiles_le in Hac.
  assert (Hba : String.le b a).
  { transitivity c; [apply sortFiles_le; now apply Hasym|exact Hac]. }
  apply sortFiles_le in Hba. congruence.
Qed.

(** ** Further properties: the classification loop *)

Lemma at_Ok {A} (container : string) (l : list A) (i : nat) (x : A) :
  at_ container l i = Ok x -> l !! i = Some x.
Proof. unfold at_. destruct (l !! i); [now intros [= ->]|discriminate]. Qed.

Lemma classifyPivot_cases (p p' : RPlot) (k : nat) :
  classifyPivot p k = Ok p' ->
  exists s, pivotItems p !! k = Some s /\
    let n := Z.of_nat (size s) in
    ((Pivot.size (major p) < n)%Z /\
     exists h, pivotHeaders p !! k = Some h /\
       p' = set_major (Pivot.make (Z.of_nat k) n h) (set_minor (major p) p)) \/
    ((n <= Pivot.size (major p))%Z /\ (Pivot.size (minor p) < n)%Z /\
     exists h, pivotHeaders p !! k = Some h /\
       p' = set_minor (Pivot.make (Z.of_nat k) n h) p) \/
    ((n <= Pivot.size (major p))%Z /\ (n <= Pivot.size (minor p))%Z /\ p' = p).
Proof.
  unfold classifyPivot. intros H. apply bind_Ok in H as (s & Hs%at_Ok & H).
  exists s. split; [exact Hs|]. cbn zeta.
  destruct (Z.gtb_spec (Z.of_nat (size s)) (Pivot.size (major p))) as [Hgt|Hle].
  - left. split; [exact Hgt|]. apply bind_Ok in H as (h & Hh%at_Ok & H).
    exists h. split; [exact Hh|]. now injection H as <-.
  - right. destruct (Z.gtb_spec (Z.of_nat (size s)) (Pivot.size (minor p))) as [Hgt'|Hle'].
    + left. split; [exact Hle|]. split; [exact Hgt'|].
      apply bind_Ok in H as (h & Hh%at_Ok & H).
      exists h. split; [exact Hh|]. now injection H as <-.
    + right. split; [exact Hle|]. split; [exact Hle'|]. now injection H as <-.
Qed.

Lemma selected_size_nonneg (items : list (gset string)) (hdrs : list string)
    (k : nat) (excl : Z) (pv : Pivot.t) :
  selected items hdrs k excl pv -> (0 <= Pivot.size pv)%Z.
Proof.
  intros [_ [->|(i & s & h & _ & _ & _ & _ & -> & _)]]; simpl; lia.
Qed.

Lemma selected_index (items : list (gset string)) (hdrs : list string)
    (k : nat) (excl : Z) (pv : Pivot.t) :
  selected items hdrs k excl pv ->
  (Pivot.index pv = -1 /\ Pivot.size pv = 0)%Z \/
  (0 <= Pivot.index pv < Z.of_nat k /\ Pivot.index pv <> excl /\ 0 < Pivot.size pv)%Z.
Proof.
  intros [_ [->|(i & s & h & Hi & Hex & _ & _ & -> & Hs & _)]]; simpl; [left; lia|right; lia].
Qed.

Lemma classifyPivot_selected (p p' : RPlot) (k : nat) :
  classifyPivot p k = Ok p' ->
  selected (pivotItems p) (pivotHeaders p) k (-1) (major p) ->
  selected (pivotItems p) (pivotHeaders p) k (Pivot.index (major p)) (minor p) ->
  pivotItems p' = pivotItems p /\ pivotHeaders p' = pivotHeaders p /\
  selected (pivotItems p) (pivotHeaders p) (S k) (-1) (major p') /\
  selected (pivotItems p) (pivotHeaders p) (S k) (Pivot.index (major p')) (minor p').
Proof.
  intros Hstep Hmaj Hmin.
  pose proof (selected_size_nonneg _ _ _ _ _ Hmaj) as Hmaj0.
  pose proof (selected_size_nonneg _ _ _ _ _ Hmin) as Hmin0.
  pose proof (selected_index _ _ _ _ _ Hmaj) as Hmajidx.
  apply classifyPivot_cases in Hstep as (s & Hs & Hcases). cbn zeta in Hcases.
  destruct Hmaj as [Hmaj_le Hmaj_w]. destruct Hmin as [Hmin_le Hmin_w].
  destruct Hcases as [(Hgt & h & Hh & ->)|[(Hle & Hgt & h & Hh & ->)|(Hle & Hle' & ->)]];
    simpl; (split; [reflexivity|]); (split; [reflexivity|]).
  - (* a new major; the old one becomes minor *)
    split; split.
    + intros j t Hj Hex Ht. destruct (decide (j = k)) as [->|Hne].
      * rewrite Hs in Ht. injection Ht as <-. simpl. lia.
      * specialize (Hmaj_le j t ltac:(lia) Hex Ht). simpl. lia.
    + right. exists k, s, h. repeat apply conj; try assumption; try reflexivity; try lia.
      intros j t Hj Hex Ht. specialize (Hmaj_le j t Hj Hex Ht). lia.
    + intros j t Hj Hex Ht. simpl in Hex.
      apply (Hmaj_le j t); [lia|lia|exact Ht].
    + destruct Hmaj_w as [->|(i & t & h' & Hi & Hex & Ht & Hh' & -> & Hpos & Htie)]; [now left|].
      right. exists i, t, h'. simpl. repeat apply conj; try assumption; try reflexivity; try lia.
      intros j u Hj _ Hu. apply (Htie j u Hj); [lia|exact Hu].
  - (* a new minor *)
    assert (Hmajk : (Pivot.index (major p) <> Z.of_nat k)%Z) by lia.
    split; split.
    + intros j t Hj Hex Ht. destruct (decide (j = k)) as [->|Hne].
      * rewrite Hs in Ht. injection Ht as <-. exact Hle.
      * apply (Hmaj_le j t); [lia|exact Hex|exact Ht].
    + destruct Hmaj_w as [->|(i & t & h' & Hi & Hex & Ht & Hh' & -> & Hpos & Htie)]; [now left|].
      right. exists i, t, h'. repeat apply conj; try assumption; try reflexivity; try lia.
    + intros j t Hj Hex Ht. destruct (decide (j = k)) as [->|Hne].
      * rewrite Hs in Ht. injection Ht as <-. simpl. lia.
      * specialize (Hmin_le j t ltac:(lia) Hex Ht). simpl. lia.
    + right. exists k, s, h. repeat apply conj; try assumption; try reflexivity; try lia.
      intros j t Hj Hex Ht. specialize (Hmin_le j t Hj Hex Ht). lia.
  - (* nothing changes *)
    split; split.
    + intros j t Hj Hex Ht. destruct (decide (j = k)) as [->|Hne].
      * rewrite Hs in Ht. injection Ht as <-. exact Hle.
      * apply (Hmaj_le j t); [lia|exact Hex|exact Ht].
    + destruct Hmaj_w as [->|(i & t & h' & Hi & Hex & Ht & Hh' & -> & Hpos & Htie)]; [now left|].
      right. exists i, t, h'. repeat apply conj; try assumption; try reflexivity; try lia.
    + intros j t Hj Hex Ht. destruct (decide (j = k)) as [->|Hne].
      * rewrite Hs in Ht. injection Ht as <-. exact Hle'.
      * apply (Hmin_le j t); [lia|exact Hex|exact Ht].
    + destruct Hmin_w as [->|(i & t & h' & Hi & Hex & Ht & Hh' & -> & Hpos & Htie)]; [now left|].
      right. exists i, t, h'. repeat apply conj; try assumption; try reflexivity; try lia.
Qed.

Lemma classify_loop_selected (m : nat) :
  forall (k : nat) (p p' : RPlot),
    foldM classifyPivot (seq k m) p = Ok p' ->
    selected (pivotItems p) (pivotHeaders p) k (-1) (major p) ->
    selected (pivotItems p) (pivotHeaders p) k (Pivot.index (major p)) (minor p) ->
    pivotItems p' = pivotItems p /\ pivotHeaders p' = pivotHeaders p /\
    selected (pivotItems p) (pivotHeaders p) (k + m) (-1) (major p') /\
    selected (pivotItems p) (pivotHeaders p) (k + m) (Pivot.index (major p')) (minor p').
Proof.
  induction m as [|m IH]; intros k p p' Hloop Hmaj Hmin; simpl in Hloop.
  - injection Hloop as <-. rewrite Nat.add_0_r. auto.
  - apply bind_Ok in Hloop as (p1 & Hstep & Hloop).
    destruct (classifyPivot_selected p p1 k Hstep Hmaj Hmin) as (Hi1 & Hh1 & Hmaj1 & Hmin1).
    rewrite <- Hi1, <- Hh1 in Hmaj1, Hmin1.
    destruct (IH (S k) p1 p' Hloop Hmaj1 Hmin1) as (Hi' & Hh' & Hmaj' & Hmin').
    rewrite Hi1, Hh1 in *. replace (k + S m) with (S k + m) by lia. auto.
Qed.

(** The selection made by the classification loop. *)
Lemma classify_selected (p p' : RPlot) :
  major p = Pivot.default -> minor p = Pivot.default ->
  classify p = Ok p' ->
  pivotItems p' = pivotItems p /\ pivotHeaders p' = pivotHeaders p /\
  selected (pivotItems p) (pivotHeaders p) (length (pivotItems p)) (-1) (major p') /\
  selected (pivotItems p) (pivotHeaders p) (length (pivotItems p))
    (Pivot.index (major p')) (minor p').
Proof.
  intros Hmaj Hmin Hc. unfold classify in Hc.
  apply (classify_loop_selected _ 0 p p' Hc).
  - rewrite Hmaj. split; [intros; lia|now left].
  - rewrite Hmin. split; [intros; lia|now left].
Qed.

(** X3. Started with default-constructed [major] and [minor], the
    classification loop leaves the containers alone and ends with [major]
    the largest label set and [minor] the largest among the others; of
    several sets of the same size the one of smallest index is taken, and
    an empty set is never taken. *)
Theorem classify_selects_two_largest (p p' : RPlot) :
  major p = Pivot.default -> minor p = Pivot.default ->
  classify p = Ok p' ->
  pivotItems p' = pivotItems p /\ pivotHeaders p' = pivotHeaders p /\
  selected (pivotItems p) (pivotHeaders p) (length (pivotItems p)) (-1) (major p') /\
  selected (pivotItems p) (pivotHeaders p) (length (pivotItems p))
    (Pivot.index (major p')) (minor p').
Proof. exact (classify_selected p p'). Qed.

Lemma classify_selects_two_largest_witness :
  exists p',
    classify rplot_read_sample = Ok p' /\
    selected (pivotItems rplot_read_sample) (pivotHeaders rplot_read_sample) 2 (-1) (major p') /\
    major p' = Pivot.make 0 2 "Algorithm" /\ minor p' = Pivot.make 1 2 "Split".
Proof.
  eassert (Hc : classify rplot_read_sample = Ok _) by (vm_compute; reflexivity).
  eexists. split; [exact Hc|].
  split; [|split; vm_compute; reflexivity].
  apply (classify_selects_two_largest rplot_read_sample _ eq_refl eq_refl Hc).
Defined.

(** ** Further properties: what the constructor records and writes *)

Lemma readPivot_write (pivots : list string) (p : RPlot) (i : nat)
    (s : gset string) (x h : string) :
  pivotItems p !! i = Some s -> pivots !! i = Some x -> pivotHeaders p !! i = Some h ->
  exists p', readPivot pivots p i = Ok p' /\
    pivotHeaders p' = pivotHeaders p /\
    pivotItems p' = <[i := {[x]} ∪ s]> (pivotItems p) /\
    same_pivots p p' /\
    fileName (file p') = fileName (file p) /\
    written (file p') = (written (file p) ++ [columnStatement h x])%list.
Proof.
  intros Hs Hx Hh. unfold readPivot.
  rewrite (at_lookup _ _ _ _ Hs), bind_ret, (at_lookup _ _ _ _ Hx), bind_ret.
  cbn zeta. simpl pivotHeaders. rewrite (at_lookup _ _ _ _ Hh), bind_ret.
  eexists. split; [reflexivity|]. repeat apply conj; reflexivity.
Qed.

Lemma items_add_refl (k : nat) (pivots : list string) (items : list (gset string)) :
  items_add k 0 pivots items items.
Proof.
  split; [reflexivity|]. intros j s Hj. exists s. split; [exact Hj|].
  intros x. split; [now left|]. intros [Hx|[Hk _]]; [exact Hx|lia].
Qed.

Lemma readPivots_exact (pivots : list string) (m : nat) :
  forall (k : nat) (p : RPlot),
    k + m <= length pivots ->
    k + m <= length (pivotHeaders p) ->
    k + m <= length (pivotItems p) ->
    exists p', foldM (readPivot pivots) (seq k m) p = Ok p' /\
      pivotHeaders p' = pivotHeaders p /\
      same_pivots p p' /\
      fileName (file p') = fileName (file p) /\
      written (file p')
      = (written (file p) ++
         zip_with columnStatement (take m (drop k (pivotHeaders p))) (take m (drop k pivots)))%list /\
      items_add k m pivots (pivotItems p) (pivotItems p').
Proof.
  induction m as [|m IH]; intros k p Hp Hh Hi; simpl foldM.
  - exists p. split; [reflexivity|]. split; [reflexivity|].
    split; [apply same_pivots_refl|]. split; [reflexivity|].
    split; [simpl; now rewrite app_nil_r|apply items_add_refl].
  - destruct (lookup_lt_is_Some_2 pivots k) as [x Hx]; [lia|].
    destruct (lookup_lt_is_Some_2 (pivotHeaders p) k) as [h Hhk]; [lia|].
    destruct (lookup_lt_is_Some_2 (pivotItems p) k) as [s Hs]; [lia|].
    destruct (readPivot_write pivots p k s x h Hs Hx Hhk)
      as (p1 & E1 & Hh1 & Hi1 & Hsame1 & Hfn1 & Hw1).
    rewrite E1, bind_ret.
    destruct (IH (S k) p1) as (p' & E' & Hh' & Hsame' & Hfn' & Hw' & Hlen' & Hadd').
    { lia. } { rewrite Hh1. lia. } { rewrite Hi1, length_insert. lia. }
    exists p'. split; [exact E'|]. split; [congruence|].
    split; [eapply same_pivots_trans; eassumption|]. split; [congruence|].
    split.
    { rewrite Hw', Hw1, Hh1, (drop_S _ _ _ Hhk), (drop_S _ _ _ Hx). simpl.
      now rewrite <- app_assoc. }
    split; [rewrite Hlen', Hi1; apply length_insert|].
    intros j t Hj. rewrite Hi1 in Hadd'.
    destruct (decide (j = k)) as [->|Hne].
    + assert (t = s) as -> by congruence.
      destruct (Hadd' k ({[x]} ∪ s)) as (s' & Hs' & Hiff).
      { apply list_lookup_insert_eq. now apply lookup_lt_Some in Hs. }
      exists s'. split; [exact Hs'|]. intros y. rewrite Hiff.
      rewrite elem_of_union, elem_of_singleton. split.
      * intros [[->|Hy]|[Hk _]]; [right; split; [lia|exact Hx]|now left|lia].
      * intros [Hy|[_ Hy]]; [left; now right|].
        left. left. congruence.
    + destruct (Hadd' j t) as (s' & Hs' & Hiff).
      { now rewrite list_lookup_insert_ne. }
      exists s'. split; [exact Hs'|]. intros y. rewrite Hiff. split.
      * intros [Hy|[Hk Hy]]; [now left|right; split; [lia|exact Hy]].
      * intros [Hy|[Hk Hy]]; [now left|right; split; [lia|exact Hy]].
Qed.

(** One file of a batch that follows the convention. *)
Lemma readFile_exact (p : RPlot) (f : string) :
  1 <= length (pivotHeaders p) <= length (pivotItems p) ->
  mismatch p f = false ->
  exists p', readFile p f = Ok p' /\
    pivotHeaders p' = pivotHeaders p /\
    same_pivots p p' /\
    fileName (file p') = fileName (file p) /\
    written (file p') = (written (file p) ++ loadStatements (pivotHeaders p) f)%list /\
    items_add 0 (length (pivotHeaders p)) (getPivots f false) (pivotItems p) (pivotItems p').
Proof.
  intros [Hh Hi] Hm. unfold readFile. fold (mismatch p f). rewrite Hm. cbn zeta.
  assert (Hlen : length (getPivots f false) = length (pivotHeaders p)).
  { unfold mismatch in Hm. apply bool_decide_eq_false in Hm.
    destruct (decide (length (getPivots f false) = length (pivotHeaders p)));
      [assumption|contradiction]. }
  set (p1 := file_write _ p).
  destruct (readPivots_exact (getPivots f false) (length (getPivots f false)) 0 p1)
    as (p2 & E2 & Hh2 & Hsame2 & Hfn2 & Hw2 & Hadd2); [simpl; lia..|].
  rewrite E2, bind_ret. eexists. split; [reflexivity|].
  split; [exact Hh2|]. split; [exact Hsame2|]. split; [exact Hfn2|].
  split.
  - simpl. rewrite Hw2. simpl. rewrite !drop_0, Hlen, !firstn_all, <- Hlen, firstn_all.
    unfold loadStatements, readStatement. now rewrite <- !app_assoc.
  - simpl. rewrite <- Hlen. exact Hadd2.
Qed.

Lemma readFiles_exact (l : list string) :
  forall p, headers_fit p ->
    (forall f, f ∈ l -> mismatch p f = false) ->
    exists p', foldM readFile l p = Ok p' /\
      pivotHeaders p' = pivotHeaders p /\
      same_pivots p p' /\
      fileName (file p') = fileName (file p) /\
      written (file p')
      = (written (file p) ++ concat (loadStatements (pivotHeaders p) <$> l))%list /\
      length (pivotItems p') = length (pivotItems p) /\
      forall j s, pivotItems p !! j = Some s ->
        exists s', pivotItems p' !! j = Some s' /\
          forall x, x ∈ s' <-> x ∈ s \/ exists f, f ∈ l /\ getPivots f false !! j = Some x.
Proof.
  induction l as [|f l IH]; intros p Hfit Hall; simpl foldM.
  - exists p. split; [reflexivity|]. split; [reflexivity|].
    split; [apply same_pivots_refl|]. split; [reflexivity|].
    split; [simpl; now rewrite app_nil_r|]. split; [reflexivity|].
    intros j s Hj. exists s. split; [exact Hj|]. intros x. split; [now left|].
    intros [Hx|(g & Hg & _)]; [exact Hx|]. now apply elem_of_nil in Hg.
  - assert (Hm : mismatch p f = false) by (apply Hall, list_elem_of_here).
    destruct (readFile_exact p f Hfit Hm)
      as (p1 & E1 & Hh1 & Hsame1 & Hfn1 & Hw1 & Hlen1 & Hadd1).
    rewrite E1, bind_ret.
    assert (Hfit1 : headers_fit p1).
    { unfold headers_fit in *. rewrite Hh1, Hlen1. exact Hfit. }
    destruct (IH p1 Hfit1) as (p' & E' & Hh' & Hsame' & Hfn' & Hw' & Hlen' & Hadd').
    { intros g Hg. rewrite (mismatch_headers p p1 g Hh1).
      apply Hall. now apply list_elem_of_further. }
    exists p'. split; [exact E'|]. split; [congruence|].
    split; [eapply same_pivots_trans; eassumption|]. split; [congruence|].
    split; [rewrite Hw', Hw1, Hh1; simpl; now rewrite <- app_assoc|].
    split; [congruence|].
    intros j s Hj. destruct (Hadd1 j s Hj) as (s1 & Hs1 & Hiff1).
    destruct (Hadd' j s1 Hs1) as (s' & Hs' & Hiff').
    exists s'. split; [exact Hs'|]. intros x. rewrite Hiff', Hiff1. split.
    + intros [[Hx|[_ Hx]]|(g & Hg & Hx)].
      * now left.
      * right. exists f. split; [apply list_elem_of_here|exact Hx].
      * right. exists g. split; [now apply list_elem_of_further|exact Hx].
    + intros [Hx|(g & Hg & Hx)]; [left; now left|].
      apply elem_of_cons in Hg as [->|Hg].
      * left. right. split; [|exact Hx]. apply lookup_lt_Some in Hx.
        unfold mismatch in Hm. apply bool_decide_eq_false in Hm.
        destruct (decide (length (getPivots f false) = length (pivotHeaders p))); [lia|contradiction].
      * right. exists g. split; assumption.
Qed.

Lemma RPlot_open_exact (env : Env) (destination : File.t) (p : RPlot) :
  RPlot_open env destination = Ok p ->
  basename p = destBasename destination /\ suffix p = destSuffix destination /\
  file p = {| fileName := scriptName destination; written := preambleStatements env |} /\
  major p = Pivot.default /\ minor p = Pivot.default.
Proof.
  unfold RPlot_open. destruct (negb _); [discriminate|].
  intros [= <-]. repeat apply conj; reflexivity.
Qed.

Lemma smoothAndOrder_file (destination : File.t) (p : RPlot) :
  basename (smoothAndOrder destination p) = basename p /\
  suffix (smoothAndOrder destination p) = suffix p /\
  file (smoothAndOrder destination p) = file p.
Proof.
  unfold smoothAndOrder. cbn.
  repeat match goal with
         | |- context [if ?b then _ else _] => destruct b; cbn
         end; repeat apply conj; reflexivity.
Qed.

Lemma openDevice_written (destination : File.t) (p : RPlot) :
  basename p = destBasename destination -> suffix p = destSuffix destination ->
  written (file (openDevice p)) = (written (file p) ++ deviceStatements destination)%list /\
  fileName (file (openDevice p)) = fileName (file p).
Proof.
  intros Hb Hs. unfold openDevice, deviceStatements. simpl. rewrite Hb, Hs.
  split; [now rewrite <- app_assoc|reflexivity].
Qed.

(** A batch that follows the convention: the outcome of the constructor
    in full. *)
Lemma RPlot_ctor_convention_exact (env : Env) (files : list string) (destination : File.t) :
  files <> [] -> conventionHolds files = true ->
  QFile_open env (scriptName destination) = true ->
  exists p, RPlot_ctor env files destination = Ok p /\
    pivotHeaders p = batchHeaders files /\
    length (pivotItems p) = length (batchHeaders files) /\
    (forall j s, pivotItems p !! j = Some s ->
       forall x, x ∈ s <-> exists f, f ∈ files /\ getPivots f false !! j = Some x) /\
    fileName (file p) = scriptName destination /\
    written (file p)
    = (preambleStatements env ++
       concat (loadStatements (batchHeaders files) <$> qSort sortFiles files) ++
       deviceStatements destination)%list.
Proof.
  intros Hne Hconv Hopen. unfold RPlot_ctor.
  rewrite bool_decide_eq_false_2 by assumption.
  pose proof (conventionHolds_sorted files) as Hall. unfold batchHeaders.
  pose proof (qSort_Permutation files) as Hperm.
  destruct (qSort sortFiles files) as [|first rest] eqn:Hsort.
  { exfalso. apply Hne. now apply qSort_nil_iff. }
  specialize (Hall first rest eq_refl Hconv).
  destruct (RPlot_open_ok env destination Hopen) as (p0 & E0 & _).
  destruct (RPlot_open_exact env destination p0 E0) as (Hb0 & Hs0 & Hf0 & _ & _).
  cbn zeta. rewrite E0, bind_ret, readFiles_cons.
  pose proof (startState_fit first p0) as Hfit0.
  destruct (readFiles_exact (first :: rest) _ Hfit0)
    as (p1 & E1 & Hh1 & Hsame1 & Hfn1 & Hw1 & Hlen1 & Hadd1).
  { intros f Hf. unfold mismatch. apply bool_decide_eq_false. intros Hm. apply Hm.
    now apply Hall. }
  rewrite E1, bind_ret.
  assert (Hi1 : length (pivotItems p1) = length (getPivots first true)).
  { rewrite Hlen1. unfold startState. simpl. apply length_replicate. }
  destruct (classify_ok p1) as (p2 & E2 & Hh2 & Hi2 & Hb2 & Hs2 & Hf2).
  { rewrite Hh1, Hi1. reflexivity. }
  rewrite E2, bind_ret. eexists. split; [reflexivity|].
  destruct (smoothAndOrder_pivots destination p2) as [-> ->].
  destruct (smoothAndOrder_file destination p2) as (Hb3 & Hs3 & Hf3).
  destruct Hsame1 as (_ & _ & Hb1 & Hs1).
  destruct (openDevice_written destination (smoothAndOrder destination p2)) as [-> ->].
  { rewrite Hb3, Hb2, Hb1. exact Hb0. }
  { rewrite Hs3, Hs2, Hs1. exact Hs0. }
  rewrite Hf3, Hf2, Hfn1, Hw1, Hh2, Hi2, Hh1.
  split; [reflexivity|]. split; [exact Hi1|].
  split.
  - intros j s Hj.
    assert (Hj0 : pivotItems (startState first p0) !! j = Some ∅).
    { unfold startState. simpl. apply lookup_replicate_2.
      apply lookup_lt_Some in Hj. lia. }
    destruct (Hadd1 j ∅ Hj0) as (s' & Hs' & Hiff).
    assert (s' = s) as -> by congruence.
    intros x. rewrite Hiff. split.
    + intros [Hx|(f & Hf & Hx)]; [now apply not_elem_of_empty in Hx|].
      exists f. split; [|exact Hx]. rewrite <- Hperm. exact Hf.
    + intros (f & Hf & Hx). right. exists f. split; [|exact Hx]. rewrite Hperm. exact Hf.
  - unfold startState. simpl. rewrite Hf0. simpl.
    split; [reflexivity|]. now rewrite <- app_assoc.
Qed.

(** X4. For a non-empty batch that follows the naming convention the
    constructor keeps the headers of the batch and one label set per
    header, and the label set of a dimension holds exactly the tokens
    that the base names of the files have at that position. *)
Theorem label_sets_exact (env : Env) (files : list string) (destination : File.t) :
  files <> [] -> conventionHolds files = true ->
  QFile_open env (scriptName destination) = true ->
  exists p, RPlot_ctor env files destination = Ok p /\
    pivotHeaders p = batchHeaders files /\
    length (pivotItems p) = length (batchHeaders files) /\
    forall j s, pivotItems p !! j = Some s ->
      forall x, x ∈ s <-> exists f, f ∈ files /\ getPivots f false !! j = Some x.
Proof.
  intros Hne Hconv Hopen.
  destruct (RPlot_ctor_convention_exact env files destination Hne Hconv Hopen)
    as (p & Hp & Hh & Hlen & Hitems & _).
  exists p. auto.
Qed.

Lemma label_sets_exact_witness :
  exists p, RPlot_ctor env_sample files_scenario_A destination_sample = Ok p /\
    pivotHeaders p = ["Algorithm"; "Split"] /\
    forall s, pivotItems p !! 1 = Some s -> "1" ∈ s.
Proof.
  destruct (label_sets_exact env_sample files_scenario_A destination_sample)
    as (p & Hp & Hh & _ & Hitems); [discriminate|reflexivity|reflexivity|].
  exists p. split; [exact Hp|]. split; [exact Hh|].
  intros s Hs. apply (Hitems 1 s Hs). exists "Algorithm_Split/alg1_1.csv".
  split; [|reflexivity]. apply list_elem_of_further, list_elem_of_further, list_elem_of_here.
Defined.

(** X5. For a non-empty batch that follows the naming convention the
    script that the constructor leaves is, in this order: the two
    statements of the preamble; for each file in sorted order its read
    statement, one column statement per header and the append statement;
    the device statement and the figures comment.  Its name is the
    destination's base name followed by [.R]. *)
Theorem script_of_convention_batch (env : Env) (files : list string) (destination : File.t) :
  files <> [] -> conventionHolds files = true ->
  QFile_open env (scriptName destination) = true ->
  exists p, RPlot_ctor env files destination = Ok p /\
    fileName (file p) = scriptName destination /\
    written (file p)
    = (preambleStatements env ++
       concat (loadStatements (batchHeaders files) <$> qSort sortFiles files) ++
       deviceStatements destination)%list.
Proof.
  intros Hne Hconv Hopen.
  destruct (RPlot_ctor_convention_exact env files destination Hne Hconv Hopen)
    as (p & Hp & _ & _ & _ & Hfn & Hw).
  exists p. auto.
Qed.

Lemma script_of_convention_batch_witness :
  exists p, RPlot_ctor env_sample files_scenario_A destination_sample = Ok p /\
    length (written (file p)) = 16.
Proof.
  destruct (script_of_convention_batch env_sample files_scenario_A destination_sample)
    as (p & Hp & _ & Hw); [discriminate|reflexivity|reflexivity|].
  exists p. split; [exact Hp|]. rewrite Hw. reflexivity.
Defined.

(** *** The ways in which the constructor ends *)

Lemma readFiles_headers (l : list string) :
  forall p p', headers_fit p -> foldM readFile l p = Ok p' ->
    pivotHeaders p' = pivotHeaders p \/ pivotHeaders p' = ["File"].
Proof.
  induction l as [|f l IH]; intros p p' Hfit; simpl.
  - intros [= ->]. now left.
  - destruct (readFile_spec p f Hfit) as (p1 & E1 & Hh1 & _ & Hgrow1 & _).
    rewrite E1, bind_ret. intros E'.
    pose proof (readFile_fit p p1 f Hfit Hh1 Hgrow1) as Hfit1.
    destruct (IH p1 p' Hfit1 E') as [H|H]; [|now right].
    rewrite H, Hh1. destruct (mismatch p f); [now right|now left].
Qed.

Lemma classifyPivot_outcome (p : RPlot) (k : nat) :
  k < length (pivotItems p) ->
  (exists p', classifyPivot p k = Ok p' /\
     pivotHeaders p' = pivotHeaders p /\ pivotItems p' = pivotItems p) \/
  (length (pivotHeaders p) <= k /\
   classifyPivot p k = inl (IndexOutOfRange "pivotHeaders" k (length (pivotHeaders p)))).
Proof.
  intros Hk. destruct (decide (k < length (pivotHeaders p))) as [Hlt|Hge].
  - left. destruct (classifyPivot_ok p k Hk Hlt) as (p' & E & Hh & Hi & _).
    exists p'. auto.
  - destruct (lookup_lt_is_Some_2 _ _ Hk) as [s Hs].
    unfold classifyPivot. rewrite (at_lookup _ _ _ _ Hs), bind_ret.
    destruct (_ >? _)%Z.
    + right. split; [lia|]. simpl. rewrite at_out_of_range by lia. reflexivity.
    + destruct (_ >? _)%Z.
      * right. split; [lia|]. rewrite at_out_of_range by lia. reflexivity.
      * left. exists p. auto.
Qed.

Lemma classify_loop_outcome (m : nat) :
  forall (k : nat) (p : RPlot),
    k + m <= length (pivotItems p) ->
    (exists p', foldM classifyPivot (seq k m) p = Ok p') \/
    (exists i, length (pivotHeaders p) <= i /\ k <= i < k + m /\
       foldM classifyPivot (seq k m) p
       = inl (IndexOutOfRange "pivotHeaders" i (length (pivotHeaders p)))).
Proof.
  induction m as [|m IH]; intros k p Hk; simpl.
  - left. now exists p.
  - destruct (classifyPivot_outcome p k) as [(p1 & E1 & Hh1 & Hi1)|[Hge E1]]; [lia| |].
    + rewrite E1, bind_ret.
      destruct (IH (S k) p1) as [(p' & E')|(i & Hi & Hrange & E')]; [rewrite Hi1; lia| |].
      * left. now exists p'.
      * right. exists i. rewrite <- Hh1. split; [exact Hi|]. split; [lia|exact E'].
    + right. exists k. split; [exact Hge|]. split; [lia|]. now rewrite E1.
Qed.

(** X6. The constructor is fatal on an empty batch and when the script
    cannot be opened.  Otherwise the loop over the files always runs to
    its end, and the constructor either returns or stops in the
    classification loop on [pivotHeaders[i]] with [i >= 1] and a single
    header left; the latter only happens to a batch that breaks the naming
    convention. *)
Theorem constructor_outcomes (env : Env) (files : list string) (destination : File.t) :
  (files = [] -> RPlot_ctor env files destination = inl (Fatal "Empty file list.")) /\
  (files <> [] -> QFile_open env (scriptName destination) = false ->
   RPlot_ctor env files destination
   = inl (Fatal ("Failed to open " +:+ scriptName destination +:+ " for writing."))) /\
  (files <> [] -> QFile_open env (scriptName destination) = true ->
   (exists p0 p1, RPlot_open env destination = Ok p0 /\
                  readFiles (qSort sortFiles files) p0 = Ok p1) /\
   ((exists p, RPlot_ctor env files destination = Ok p) \/
    (conventionHolds files = false /\
     exists i, 1 <= i < length (batchHeaders files) /\
       RPlot_ctor env files destination = inl (IndexOutOfRange "pivotHeaders" i 1)))).
Proof.
  split; [intros ->; reflexivity|]. split.
  - intros Hne Hopen. unfold RPlot_ctor. rewrite bool_decide_eq_false_2 by assumption.
    cbn zeta. unfold RPlot_open. unfold scriptName in Hopen. rewrite Hopen. reflexivity.
  - intros Hne Hopen.
    destruct (RPlot_open_ok env destination Hopen) as (p0 & E0 & _).
    unfold RPlot_ctor, batchHeaders. rewrite bool_decide_eq_false_2 by assumption.
    destruct (qSort sortFiles files) as [|first rest] eqn:Hsort.
    { exfalso. apply Hne. now apply qSort_nil_iff. }
    cbn zeta. rewrite E0, bind_ret, readFiles_cons.
    pose proof (startState_fit first p0) as Hfit0.
    destruct (readFiles_total (first :: rest) _ Hfit0) as (p1 & E1 & Hfit1 & _ & [Hlen1 _]).
    split; [exists p0, p1; split; [reflexivity|exact E1]|].
    rewrite E1, bind_ret.
    assert (Hi1 : length (pivotItems p1) = length (getPivots first true)).
    { rewrite Hlen1. unfold startState. simpl. apply length_replicate. }
    unfold classify.
    destruct (classify_loop_outcome (length (pivotItems p1)) 0 p1)
      as [(p2 & E2)|(i & Hi & Hrange & E2)]; [lia| |].
    + left. rewrite E2, bind_ret. eauto.
    + right.
      assert (Hfile : pivotHeaders p1 = ["File"]).
      { destruct (readFiles_headers _ _ _ Hfit0 E1) as [H|H]; [|exact H].
        exfalso. rewrite H in Hi. unfold startState in Hi. simpl in Hi. lia. }
      rewrite Hfile in Hi, E2. simpl in Hi, E2.
      split.
      * destruct (conventionHolds files) eqn:Hconv; [exfalso|reflexivity].
        destruct (RPlot_ctor_convention_ok env files destination Hne Hconv Hopen)
          as (p & Hp & _).
        unfold RPlot_ctor in Hp. rewrite bool_decide_eq_false_2 in Hp by assumption.
        cbn zeta in Hp. rewrite Hsort, E0, bind_ret, readFiles_cons, E1, bind_ret in Hp.
        unfold classify in Hp. rewrite E2 in Hp. discriminate Hp.
      * exists i. split; [lia|]. rewrite E2. reflexivity.
Qed.

Lemma constructor_outcomes_witness :
  RPlot_ctor env_sample [] destination_sample = inl (Fatal "Empty file list.") /\
  (exists p, RPlot_ctor env_sample files_scenario_A destination_sample = Ok p) /\
  RPlot_ctor env_sample files_late_mismatch destination_sample
  = inl (IndexOutOfRange "pivotHeaders" 1 1).
Proof.
  split; [apply (constructor_outcomes env_sample [] destination_sample); reflexivity|].
  split.
  - destruct (constructor_outcomes env_sample files_scenario_A destination_sample)
      as (_ & _ & H).
    destruct H as [_ [Hok|(Hconv & _)]]; [discriminate|reflexivity|exact Hok|discriminate Hconv].
  - vm_compute. reflexivity.
Defined.

(** ** Further properties: smoothing *)

Lemma smoothAndOrder_shape (destination : File.t) (q : RPlot) :
  let smooth := File.get_or File.to_QString destination "smooth" "" in
  let M := smoothOne smooth (major q) in
  let m := smoothOne smooth (minor q) in
  let r := openDevice (smoothAndOrder destination q) in
  major r = (if (Pivot.size M <? Pivot.size m)%Z then m else M) /\
  minor r = (if (Pivot.size M <? Pivot.size m)%Z then M else m).
Proof.
  intros smooth M m r. subst r M m. unfold smoothAndOrder, smoothOne. fold smooth. cbn.
  destruct (negb (bool_decide (smooth = "")) && bool_decide (Pivot.header (major q) = smooth)
            && (Pivot.size (major q) >? 1)%Z);
  destruct (negb (bool_decide (smooth = "")) && bool_decide (Pivot.header (minor q) = smooth)
            && (Pivot.size (minor q) >? 1)%Z); cbn;
  repeat match goal with
         | |- context [(?a <? ?b)%Z] => destruct (a <? b)%Z; cbn
         end; split; reflexivity.
Qed.

Lemma smoothOne_smooth (smooth : string) (pv : Pivot.t) :
  Pivot.smooth (smoothOne smooth pv) = true ->
  Pivot.size (smoothOne smooth pv) = 1%Z /\
  Pivot.header (smoothOne smooth pv) = smooth /\ smooth <> "" /\
  (1 < Pivot.size pv)%Z.
Proof.
  unfold smoothOne.
  destruct (negb (bool_decide (smooth = "")) && bool_decide (Pivot.header pv = smooth)
            && (Pivot.size pv >? 1)%Z) eqn:E; cbn; [|discriminate].
  intros _. apply andb_true_iff in E as [E Hsize]. apply andb_true_iff in E as [Hne Hh].
  apply negb_true_iff, bool_decide_eq_false in Hne.
  apply bool_decide_eq_true in Hh. apply Z.gtb_lt in Hsize. auto.
Qed.

Lemma smoothOne_other (smooth : string) (pv : Pivot.t) :
  smooth = "" \/ Pivot.header pv <> smooth \/ (Pivot.size pv <= 1)%Z ->
  smoothOne smooth pv = Pivot.set_smooth false pv.
Proof.
  intros H. unfold smoothOne.
  destruct (negb (bool_decide (smooth = "")) && bool_decide (Pivot.header pv = smooth)
            && (Pivot.size pv >? 1)%Z) eqn:E; [exfalso|reflexivity].
  apply andb_true_iff in E as [E Hsize]. apply andb_true_iff in E as [Hne Hh].
  apply negb_true_iff, bool_decide_eq_false in Hne.
  apply bool_decide_eq_true in Hh. apply Z.gtb_lt in Hsize.
  destruct H as [H|[H|H]]; [contradiction|contradiction|lia].
Qed.

(** What a smoothed pivot looks like in a result of the constructor. *)
Lemma smoothed_pivot_facts (env : Env) (files : list string) (destination : File.t)
    (p : RPlot) :
  RPlot_ctor env files destination = Ok p ->
  let smooth := File.get_or File.to_QString destination "smooth" "" in
  (Pivot.smooth (major p) = true ->
   Pivot.size (major p) = 1%Z /\ Pivot.header (major p) = smooth /\ smooth <> "") /\
  (Pivot.smooth (minor p) = true ->
   Pivot.size (minor p) = 1%Z /\ Pivot.header (minor p) = smooth /\ smooth <> "") /\
  (smooth = "" -> Pivot.smooth (major p) = false /\ Pivot.smooth (minor p) = false).
Proof.
  intros Hp smooth. apply RPlot_ctor_inv in Hp as [q ->].
  destruct (smoothAndOrder_shape destination q) as [-> ->]. fold smooth.
  assert (Hempty : forall pv, smooth = "" -> Pivot.smooth (smoothOne smooth pv) = false).
  { intros pv He. rewrite smoothOne_other by now left. reflexivity. }
  split; [|split].
  - destruct (_ <? _)%Z; intros H; apply smoothOne_smooth in H; tauto.
  - destruct (_ <? _)%Z; intros H; apply smoothOne_smooth in H; tauto.
  - intros He. destruct (_ <? _)%Z; split; now apply Hempty.
Qed.

(** X7. In every result of the constructor a pivot that is marked as
    smoothed has the size 1, its header is the [smooth] option, and that
    option is not empty; with an empty [smooth] option nothing is marked. *)
Theorem smoothed_pivot_invariant (env : Env) (files : list string) (destination : File.t)
    (p : RPlot) :
  RPlot_ctor env files destination = Ok p ->
  let smooth := File.get_or File.to_QString destination "smooth" "" in
  (Pivot.smooth (major p) = true ->
   Pivot.size (major p) = 1%Z /\ Pivot.header (major p) = smooth /\ smooth <> "") /\
  (Pivot.smooth (minor p) = true ->
   Pivot.size (minor p) = 1%Z /\ Pivot.header (minor p) = smooth /\ smooth <> "") /\
  (smooth = "" -> Pivot.smooth (major p) = false /\ Pivot.smooth (minor p) = false).
Proof. exact (smoothed_pivot_facts env files destination p). Qed.

Lemma smoothed_pivot_invariant_witness :
  Pivot.smooth (minor (rplot_smooth 95)) = true /\
  Pivot.size (minor (rplot_smooth 95)) = 1%Z /\
  Pivot.header (minor (rplot_smooth 95)) = "Split".
Proof.
  eassert (Hp : RPlot_ctor env_sample files_scenario_A (destination_smooth 95) = Ok _)
    by (vm_compute; reflexivity).
  destruct (smoothed_pivot_invariant _ _ _ _ Hp) as (_ & Hminor & _).
  split; [reflexivity|].
  destruct (Hminor eq_refl) as (Hsize & Hheader & _).
  split; [exact Hsize|exact Hheader].
Defined.

Lemma selected_smooth (items : list (gset string)) (hdrs : list string)
    (k : nat) (excl : Z) (pv : Pivot.t) :
  selected items hdrs k excl pv -> Pivot.set_smooth false pv = pv.
Proof. intros [_ [->|(i & s & h & _ & _ & _ & _ & -> & _)]]; reflexivity. Qed.

Lemma selected_minor_le_major (items : list (gset string)) (hdrs : list string)
    (k : nat) (excl : Z) (M m : Pivot.t) :
  selected items hdrs k (-1) M -> selected items hdrs k excl m ->
  (Pivot.size m <= Pivot.size M)%Z.
Proof.
  intros HM [_ [->|(i & s & h & Hi & _ & Hs & _ & -> & _)]].
  - apply (selected_size_nonneg _ _ _ _ _ HM).
  - destruct HM as [Hle _]. simpl. apply (Hle i s Hi); [lia|exact Hs].
Qed.

(** Lines 121-127 when [smooth] matches no selected header. *)
Lemma smoothAndOrder_without_match (destination : File.t) (p q : RPlot) :
  major p = Pivot.default -> minor p = Pivot.default ->
  classify p = Ok q ->
  let smooth := File.get_or File.to_QString destination "smooth" "" in
  smooth = "" \/ (Pivot.header (major q) <> smooth /\ Pivot.header (minor q) <> smooth) ->
  major (openDevice (smoothAndOrder destination q)) = major q /\
  minor (openDevice (smoothAndOrder destination q)) = minor q.
Proof.
  intros Hmaj Hmin Hc smooth Hs.
  destruct (classify_selected p q Hmaj Hmin Hc) as (_ & _ & HM & Hm).
  destruct (smoothAndOrder_shape destination q) as [-> ->]. fold smooth.
  rewrite !smoothOne_other by tauto.
  rewrite (selected_smooth _ _ _ _ _ HM), (selected_smooth _ _ _ _ _ Hm).
  pose proof (selected_minor_le_major _ _ _ _ _ _ HM Hm) as Hle.
  destruct (Z.ltb_spec (Pivot.size (major q)) (Pivot.size (minor q))); [lia|].
  split; reflexivity.
Qed.

(** X8. When the [smooth] option is empty, or is the header of neither
    pivot that the classification loop selected, lines 121-127 change
    nothing: [major] and [minor] stay as the loop left them, unsmoothed
    and with the sizes of their label sets. *)
Theorem smooth_without_match_keeps_pivots (destination : File.t) (p q : RPlot) :
  major p = Pivot.default -> minor p = Pivot.default ->
  classify p = Ok q ->
  let smooth := File.get_or File.to_QString destination "smooth" "" in
  smooth = "" \/ (Pivot.header (major q) <> smooth /\ Pivot.header (minor q) <> smooth) ->
  major (openDevice (smoothAndOrder destination q)) = major q /\
  minor (openDevice (smoothAndOrder destination q)) = minor q.
Proof. exact (smoothAndOrder_without_match destination p q). Qed.

Lemma smooth_without_match_keeps_pivots_witness :
  exists q, classify rplot_read_sample = Ok q /\
    major (openDevice (smoothAndOrder destination_sample q)) = Pivot.make 0 2 "Algorithm" /\
    minor (openDevice (smoothAndOrder destination_sample q)) = Pivot.make 1 2 "Split".
Proof.
  eassert (Hc : classify rplot_read_sample = Ok _) by (vm_compute; reflexivity).
  eexists. split; [exact Hc|].
  destruct (smooth_without_match_keeps_pivots destination_sample rplot_read_sample _
              eq_refl eq_refl Hc) as [-> ->]; [left; reflexivity|].
  split; vm_compute; reflexivity.
Defined.

(** X9. A pivot that the constructor has marked as smoothed is not used
    for a visual encoding: a smoothed [major] gives neither colour
    encoding nor colour scale, a smoothed [minor] neither line-style
    encoding nor line-style scale, in any chart declaration. *)
Theorem smoothed_pivot_not_encoded (env : Env) (files : list string) (destination : File.t)
    (p : RPlot) (geom data : string) (flipY : bool) (opts : File.t)
    (operands : list string) :
  RPlot_ctor env files destination = Ok p ->
  qplot_operands env p geom data flipY opts = Ok operands ->
  (Pivot.smooth (major p) = true -> operands !! 2 = Some "" /\ operands !! 6 = Some "") /\
  (Pivot.smooth (minor p) = true -> operands !! 3 = Some "" /\ operands !! 7 = Some "").
Proof.
  intros Hp Hops.
  destruct (smoothed_pivot_facts env files destination p Hp) as (Hmajor & Hminor & _).
  destruct (qplot_operands_shape _ _ _ _ _ _ _ Hops)
    as (o0 & o1 & o4 & o8 & o9 & o10 & o11 & o12 & o13 & o14 & -> & _).
  split; intros Hs.
  - destruct (Hmajor Hs) as (-> & _). split; reflexivity.
  - destruct (Hminor Hs) as (-> & _). split; reflexivity.
Qed.

Lemma smoothed_pivot_not_encoded_witness :
  exists operands,
    qplot_operands env_sample (rplot_smooth 95) "line" "DET" true rocOptions_default
    = Ok operands /\
    operands !! 3 = Some "" /\ operands !! 7 = Some "".
Proof.
  eassert (Hp : RPlot_ctor env_sample files_scenario_A (destination_smooth 95) = Ok _)
    by (vm_compute; reflexivity).
  eassert (Hops : qplot_operands env_sample _ "line" "DET" true rocOptions_default = Ok _)
    by (vm_compute; reflexivity).
  eexists. split; [exact Hops|].
  apply (smoothed_pivot_not_encoded _ _ _ _ _ _ _ _ _ Hp Hops). reflexivity.
Defined.

(** ** Further properties: the single-point test of the detection report *)

Lemma singlePointLoop_count (lines : list string) :
  forall rocCnt, (0 <= rocCnt <= 1)%Z ->
    singlePointLoop lines rocCnt
    = bool_decide
        (rocCnt + Z.of_nat (length (List.filter (QString_contains "DiscreteROC") lines)) <= 1)%Z.
Proof.
  induction lines as [|line lines IH]; intros rocCnt Hc; simpl.
  - symmetry. apply bool_decide_eq_true. lia.
  - destruct (QString_contains "DiscreteROC" line); simpl.
    + destruct (Z.gtb_spec (rocCnt + 1) 1) as [Hgt|Hle].
      * symmetry. apply bool_decide_eq_false. lia.
      * rewrite IH by lia. apply bool_decide_ext. lia.
    + destruct (Z.gtb_spec rocCnt 1) as [Hgt|Hle]; [lia|]. now apply IH.
Qed.

(** The answer of [fileHasSinglePoint] in terms of the number of lines. *)
Lemma fileHasSinglePoint_spec (disk : Disk) (evalFile : string) :
  (QFile_readAll disk evalFile = None ->
   fileHasSinglePoint disk evalFile
   = inl (Fatal ("Failed to open " +:+ evalFile +:+ " for reading."))) /\
  (forall contents, QFile_readAll disk evalFile = Some contents ->
     fileHasSinglePoint disk evalFile = Ok (bool_decide (rocLines contents <= 1)) /\
     (rocLines contents = 0 -> fileHasSinglePoint disk evalFile = Ok true)).
Proof.
  unfold fileHasSinglePoint. split; [now intros ->|].
  intros contents ->.
  assert (E : singlePointLoop (QString_split "010" contents) 0
              = bool_decide (rocLines contents <= 1)).
  { rewrite singlePointLoop_count by lia. unfold rocLines. apply bool_decide_ext. lia. }
  rewrite E. split; [reflexivity|].
  intros ->. reflexivity.
Qed.

(** X10. [fileHasSinglePoint] is fatal when the file cannot be opened;
    otherwise it answers true exactly when at most one line of the file
    mentions [DiscreteROC], so also for a file without any such line. *)
Theorem fileHasSinglePoint_count (disk : Disk) (evalFile : string) :
  (QFile_readAll disk evalFile = None ->
   fileHasSinglePoint disk evalFile
   = inl (Fatal ("Failed to open " +:+ evalFile +:+ " for reading."))) /\
  (forall contents, QFile_readAll disk evalFile = Some contents ->
     fileHasSinglePoint disk evalFile = Ok (bool_decide (rocLines contents <= 1)) /\
     (rocLines contents = 0 -> fileHasSinglePoint disk evalFile = Ok true)).
Proof. exact (fileHasSinglePoint_spec disk evalFile). Qed.

Lemma fileHasSinglePoint_count_witness :
  fileHasSinglePoint disk_sample "one.csv" = Ok true /\
  fileHasSinglePoint disk_sample "two.csv" = Ok false /\
  fileHasSinglePoint disk_sample "none.csv"
  = inl (Fatal "Failed to open none.csv for reading.").
Proof.
  split; [|split].
  - exact (proj1 (proj2 (fileHasSinglePoint_count disk_sample "one.csv") _ eq_refl)).
  - exact (proj1 (proj2 (fileHasSinglePoint_count disk_sample "two.csv") _ eq_refl)).
  - apply (proj1 (fileHasSinglePoint_count disk_sample "none.csv") eq_refl).
Defined.

(** X11. [filesHaveSinglePoint] goes through the files in order and stops
    at the first one with at most one [DiscreteROC] line: it answers true
    there whatever follows, is fatal if it meets a file that cannot be
    opened before that, and answers false when every file has two or more
    such lines, in particular for no file at all. *)
Theorem filesHaveSinglePoint_first (disk : Disk) (before : list string) :
  Forall (fun f => exists contents,
            QFile_readAll disk (File.name (File_init disk f)) = Some contents /\
            2 <= rocLines contents) before ->
  filesHaveSinglePoint disk before = Ok false /\
  (forall f after contents,
     QFile_readAll disk (File.name (File_init disk f)) = Some contents ->
     rocLines contents <= 1 ->
     filesHaveSinglePoint disk (before ++ f :: after) = Ok true) /\
  (forall f after,
     QFile_readAll disk (File.name (File_init disk f)) = None ->
     filesHaveSinglePoint disk (before ++ f :: after)
     = inl (Fatal ("Failed to open " +:+ File.name (File_init disk f) +:+ " for reading."))).
Proof.
  induction 1 as [|g before (contents & Hg & Hcount) Hbefore IH].
  - split; [reflexivity|]. split.
    + intros f after contents Hf Hcount. simpl.
      rewrite (proj1 (proj2 (fileHasSinglePoint_spec disk _) contents Hf)), bind_ret.
      now rewrite bool_decide_eq_true_2.
    + intros f after Hf. simpl.
      now rewrite (proj1 (fileHasSinglePoint_spec disk _) Hf).
  - destruct IH as (IH1 & IH2 & IH3).
    assert (E : fileHasSinglePoint disk (File.name (File_init disk g)) = Ok false).
    { rewrite (proj1 (proj2 (fileHasSinglePoint_spec disk _) contents Hg)).
      rewrite bool_decide_eq_false_2 by lia. reflexivity. }
    split; [simpl; now rewrite E, bind_ret|]. split.
    + intros f after c Hf Hc. simpl. rewrite E, bind_ret. now apply (IH2 f after c).
    + intros f after Hf. simpl. rewrite E, bind_ret. now apply IH3.
Qed.

Lemma filesHaveSinglePoint_first_witness :
  filesHaveSinglePoint disk_sample ["two.csv"; "one.csv"; "none.csv"] = Ok true.
Proof.
  refine (proj1 (proj2 (filesHaveSinglePoint_first disk_sample ["two.csv"] _))
            "one.csv" ["none.csv"] _ eq_refl _).
  - constructor; [|constructor]. eexists. split; [reflexivity|]. vm_compute. lia.
  - vm_compute. lia.
Defined.

(** ** Further properties: option overrides *)

Lemma setOption_Ok_iff (opts : File.t) (option : string) :
  (exists opts', setOption opts option = Ok opts') <->
  length (QtUtils_parse option "=") = 2.
Proof.
  split.
  - intros [opts' H].
    pose proof (QString_split_length "=" option) as Hpos. fold (QtUtils_parse option "=") in Hpos.
    destruct (decide (length (QtUtils_parse option "=") = 1)) as [H1|H1].
    { rewrite (setOption_bare_name opts option H1) in H. discriminate. }
    destruct (decide (2 < length (QtUtils_parse option "="))) as [H2|H2]; [|lia].
    destruct (setOption_too_many opts option H2) as [msg Hmsg].
    rewrite Hmsg in H. discriminate.
  - intros Hlen.
    destruct (QtUtils_parse option "=") as [|k [|v [|w ws]]] eqn:E; try discriminate.
    eexists. apply (setOption_key_value opts option k v E).
Qed.

Lemma overrideOptions_key (key : string) (options : list string) :
  forall m : gmap string File.t, key ∈ dom m ->
    ((exists m', foldM (fun optMap option =>
                          opts <- setOption (default (File.of_options []) (optMap !! key)) option ;;
                          Ok (<[key := opts]> optMap)) options m = Ok m') <->
     Forall (fun option => length (QtUtils_parse option "=") = 2) options) /\
    (forall m', foldM (fun optMap option =>
                         opts <- setOption (default (File.of_options []) (optMap !! key)) option ;;
                         Ok (<[key := opts]> optMap)) options m = Ok m' ->
                dom m' = dom m).
Proof.
  induction options as [|option options IH]; intros m Hkey; simpl.
  - split; [split; [constructor|now exists m]|]. now intros m' [= <-].
  - set (opts0 := default (File.of_options []) (m !! key)).
    destruct (setOption opts0 option) as [e|opts'] eqn:E.
    + split; [split|].
      * intros [m' H]. discriminate.
      * intros [Hlen _]%Forall_cons. exfalso.
        apply (setOption_Ok_iff opts0 option) in Hlen as [o Ho].
        rewrite Ho in E. discriminate.
      * intros m' H. discriminate.
    + rewrite bind_ret.
      assert (Hdom : dom (<[key := opts']> m) = dom m).
      { rewrite dom_insert_L. apply subseteq_union_1_L. now apply singleton_subseteq_l. }
      destruct (IH (<[key := opts']> m)) as [IHiff IHdom]; [rewrite Hdom; exact Hkey|].
      split; [|intros m' H; rewrite (IHdom m' H); exact Hdom].
      rewrite IHiff, Forall_cons.
      assert (Hlen : length (QtUtils_parse option "=") = 2).
      { apply (setOption_Ok_iff opts0 option). eauto. }
      tauto.
Qed.

Lemma overrideOptions_keys (destination : File.t) (keys : list string) :
  forall m : gmap string File.t, (forall key, key ∈ keys -> key ∈ dom m) ->
    let body := fun optMap key =>
      foldM (fun optMap option =>
               opts <- setOption (default (File.of_options []) (optMap !! key)) option ;;
               Ok (<[key := opts]> optMap))
            (File.get_or File.to_QStringList destination key []) optMap in
    ((exists m', foldM body keys m = Ok m') <->
     (forall key option, key ∈ keys ->
        option ∈ File.get_or File.to_QStringList destination key [] ->
        length (QtUtils_parse option "=") = 2)) /\
    (forall m', foldM body keys m = Ok m' -> dom m' = dom m).
Proof.
  induction keys as [|key keys IH]; intros m Hkeys body; simpl.
  - split; [split; [intros _ key option Hk; now apply elem_of_nil in Hk|now exists m]|].
    now intros m' [= <-].
  - destruct (overrideOptions_key key (File.get_or File.to_QStringList destination key []) m)
      as [Hiff Hdom]; [apply Hkeys, list_elem_of_here|].
    rewrite Forall_forall in Hiff.
    destruct (body m key) as [e|m1] eqn:E; unfold body in E.
    + split; [split|].
      * intros [m' H]. discriminate.
      * intros Hall. exfalso.
        destruct (proj2 Hiff) as [m' H].
        { intros option Hopt. apply (Hall key option); [apply list_elem_of_here|exact Hopt]. }
        rewrite E in H. discriminate.
      * intros m' H. discriminate.
    + rewrite bind_ret.
      assert (Hdom1 : dom m1 = dom m) by now apply Hdom.
      destruct (IH m1) as [IHiff IHdom].
      { intros k Hk. rewrite Hdom1. now apply Hkeys, list_elem_of_further. }
      split; [|intros m' H; rewrite (IHdom m' H); exact Hdom1].
      fold body in IHiff. rewrite IHiff. split.
      * intros Hall k option Hk Hopt. apply elem_of_cons in Hk as [->|Hk].
        -- apply Hiff; [now exists m1|exact Hopt].
        -- now apply (Hall k option).
      * intros Hall k option Hk Hopt. apply (Hall k option); [|exact Hopt].
        now apply list_elem_of_further.
Qed.

Lemma QMap_keys_elem_of {V} (m : gmap string V) (key : string) :
  key ∈ QMap_keys m <-> key ∈ dom m.
Proof. unfold QMap_keys. rewrite merge_sort_Permutation. apply elem_of_elements. Qed.

(** X12. The overrides of a report are applied exactly when every entry
    of every override list that belongs to one of its chart types has a
    name and a value (two tokens around one [=]); any other entry makes
    the whole resolution fail.  Overrides never add or remove a chart
    type.  ([QtUtils::parse] and [QtUtils::checkArgsSize] are modelled.) *)
Theorem overrideOptions_succeeds_iff (destination : File.t) (optMap : gmap string File.t) :
  ((exists optMap', overrideOptions destination optMap = Ok optMap') <->
   overridesWellFormed destination optMap) /\
  (forall optMap', overrideOptions destination optMap = Ok optMap' ->
                   dom optMap' = dom optMap).
Proof.
  unfold overrideOptions, overridesWellFormed.
  destruct (overrideOptions_keys destination (QMap_keys optMap) optMap) as [Hiff Hdom].
  { intros key. apply QMap_keys_elem_of. }
  split; [|exact Hdom]. rewrite Hiff. split.
  - intros H key option Hk. apply H. now apply QMap_keys_elem_of.
  - intros H key option Hk. apply H. now apply QMap_keys_elem_of.
Qed.

Lemma overrideOptions_succeeds_iff_witness :
  exists optMap', Plot_options destination_xLog_false = Ok optMap' /\
                  dom optMap' = dom Plot_optMap.
Proof.
  destruct (overrideOptions_succeeds_iff destination_xLog_false Plot_optMap) as [Hiff Hdom].
  destruct (proj2 Hiff) as [optMap' H].
  - intros key option _. unfold File.get_or, destination_xLog_false. simpl.
    destruct (decide (key = "rocOptions")) as [->|Hne].
    + rewrite lookup_singleton_eq. simpl. intros ->%list_elem_of_singleton. reflexivity.
    + rewrite lookup_singleton_ne by congruence. intros Hin. now apply elem_of_nil in Hin.
  - exists optMap'. split; [exact H|exact (Hdom optMap' H)].
Defined.

Lemma sortFiles_strict_total_order_witness :
  sortFiles "A_B/x_1.csv" "A_B/y.csv" = true /\ sortFiles "A_B/y.csv" "A_B/x_1.csv" = false.
Proof.
  destruct sortFiles_strict_total_order as (_ & _ & Hasym & Htot).
  destruct (Htot "A_B/x_1.csv" "A_B/y.csv") as [H|H]; [discriminate| |discriminate H].
  split; [exact H|exact (Hasym _ _ H)].
Defined.

(** ** Further properties: where the output goes *)

Lemma readFile_written (p : RPlot) (f : string) :
  headers_fit p ->
  exists p' stmts, readFile p f = Ok p' /\
    fileName (file p') = fileName (file p) /\
    written (file p') = (written (file p) ++ stmts)%list.
Proof.
  intros [Hh Hi]. unfold readFile. fold (mismatch p f). fold (recorded p f).
  set (p1 := file_write _ _).
  assert (Hlen : length (recorded p f) = length (pivotHeaders p1)).
  { unfold recorded, p1, mismatch. case_bool_decide as Hm; simpl; [reflexivity|].
    destruct (decide (length (getPivots f false) = length (pivotHeaders p)));
      [assumption|contradiction]. }
  assert (Hle : length (pivotHeaders p1) <= length (pivotItems p1)).
  { unfold p1. destruct (mismatch p f); simpl; lia. }
  destruct (readPivots_exact (recorded p f) (length (recorded p f)) 0 p1)
    as (p2 & E2 & _ & _ & Hfn2 & Hw2 & _); [lia..|].
  rewrite E2, bind_ret.
  assert (Hw1 : exists s, written (file p1) = (written (file p) ++ [s])%list).
  { unfold p1. destruct (mismatch p f); eexists; reflexivity. }
  destruct Hw1 as [s Hw1].
  eexists.
  exists ([s] ++
          zip_with columnStatement
            (take (length (recorded p f)) (drop 0 (pivotHeaders p1)))
            (take (length (recorded p f)) (drop 0 (recorded p f))) ++
          ["data <- rbind(data, tmp)" +:+ nl])%list.
  split; [reflexivity|]. simpl. rewrite Hfn2, Hw2, Hw1. split.
  - unfold p1. destruct (mismatch p f); reflexivity.
  - now rewrite <- !app_assoc.
Qed.

Lemma readFiles_written (l : list string) :
  forall p p', headers_fit p -> foldM readFile l p = Ok p' ->
    fileName (file p') = fileName (file p) /\
    exists stmts, written (file p') = (written (file p) ++ stmts)%list.
Proof.
  induction l as [|f l IH]; intros p p' Hfit; simpl.
  - intros [= ->]. split; [reflexivity|]. exists []. now rewrite app_nil_r.
  - destruct (readFile_written p f Hfit) as (p1 & stmts1 & E1 & Hfn1 & Hw1).
    destruct (readFile_spec p f Hfit) as (p1' & E1' & Hh1 & _ & Hgrow1 & _).
    assert (p1' = p1) as -> by (rewrite E1 in E1'; now injection E1').
    rewrite E1, bind_ret. intros E'.
    pose proof (readFile_fit p p1 f Hfit Hh1 Hgrow1) as Hfit1.
    destruct (IH p1 p' Hfit1 E') as (Hfn' & stmts & Hw').
    split; [congruence|]. exists (stmts1 ++ stmts)%list.
    rewrite Hw', Hw1. now rewrite <- app_assoc.
Qed.

Lemma classify_loop_keeps (l : list nat) :
  forall p p', foldM classifyPivot l p = Ok p' ->
    basename p' = basename p /\ suffix p' = suffix p /\ file p' = file p.
Proof.
  induction l as [|k l IH]; intros p p'; simpl.
  - now intros [= ->].
  - intros H. apply bind_Ok in H as (p1 & Hstep & H).
    destruct (IH p1 p' H) as (-> & -> & ->).
    apply classifyPivot_cases in Hstep as (s & _ & Hcases). cbn zeta in Hcases.
    destruct Hcases as [(_ & h & _ & ->)|[(_ & _ & h & _ & ->)|(_ & _ & ->)]];
      repeat split.
Qed.

(** Every result of the constructor carries the base name and the suffix
    of the destination, and its script starts with the preamble and ends
    with the device statements. *)
Lemma RPlot_ctor_destination (env : Env) (files : list string) (destination : File.t)
    (p : RPlot) :
  RPlot_ctor env files destination = Ok p ->
  basename p = destBasename destination /\ suffix p = destSuffix destination /\
  fileName (file p) = scriptName destination /\
  exists stmts, written (file p)
                = (preambleStatements env ++ stmts ++ deviceStatements destination)%list.
Proof.
  unfold RPlot_ctor. case_bool_decide as Hne; [discriminate|].
  destruct (qSort sortFiles files) as [|first rest] eqn:Hsort.
  { exfalso. apply Hne. now apply qSort_nil_iff. }
  cbn zeta. intros H. apply bind_Ok in H as (p0 & E0 & H).
  apply bind_Ok in H as (p1 & E1 & H). apply bind_Ok in H as (p2 & E2 & H).
  injection H as <-.
  destruct (RPlot_open_exact env destination p0 E0) as (Hb0 & Hs0 & Hf0 & _ & _).
  rewrite readFiles_cons in E1.
  pose proof (startState_fit first p0) as Hfit0.
  destruct (readFiles_total (first :: rest) _ Hfit0) as (p1' & E1' & _ & Hsame & _).
  assert (p1' = p1) as -> by (rewrite E1 in E1'; now injection E1').
  destruct Hsame as (_ & _ & Hb1 & Hs1).
  destruct (readFiles_written _ _ _ Hfit0 E1) as (Hfn1 & stmts & Hw1).
  destruct (classify_loop_keeps _ _ _ E2) as (Hb2 & Hs2 & Hf2).
  destruct (smoothAndOrder_file destination p2) as (Hb3 & Hs3 & Hf3).
  assert (Hb : basename (smoothAndOrder destination p2) = destBasename destination).
  { rewrite Hb3, Hb2, Hb1. exact Hb0. }
  assert (Hs : suffix (smoothAndOrder destination p2) = destSuffix destination).
  { rewrite Hs3, Hs2, Hs1. exact Hs0. }
  destruct (openDevice_written destination _ Hb Hs) as [Hw Hfn].
  split; [exact Hb|]. split; [exact Hs|].
  rewrite Hfn, Hw, Hf3, Hf2, Hfn1, Hw1. unfold startState. simpl. rewrite Hf0. simpl.
  split; [reflexivity|]. exists stmts. reflexivity.
Qed.

Lemma destSuffix_nonempty (destination : File.t) : destSuffix destination <> "".
Proof. unfold destSuffix. case_bool_decide; [discriminate|assumption]. Qed.

(** X13. After the constructor, [finalize] closes the script with
    [dev.off()] and, unless the suffix is [pdf], with the removal of the
    very file that the constructor's device statement opened; the suffix
    is never empty; the result is that of the R run, and the artifact is
    shown only when the run succeeded and [show] was asked for. *)
Theorem finalize_after_constructor (env : Env) (rt : Runtime) (files : list string)
    (destination : File.t) (p : RPlot) (show : bool) :
  RPlot_ctor env files destination = Ok p ->
  let artifact := destBasename destination +:+ "." +:+ destSuffix destination in
  let p' := fst (fst (finalize rt p show)) in
  let success := snd (fst (finalize rt p show)) in
  let shown := snd (finalize rt p show) in
  suffix p <> "" /\
  (exists stmts, written (file p)
                 = (preambleStatements env ++ stmts ++ deviceStatements destination)%list) /\
  written (file p')
  = (written (file p) ++ ["dev.off()" +:+ nl] ++
     (if bool_decide (destSuffix destination = "pdf") then []
      else ["unlink(" +:+ dq +:+ destBasename destination +:+ "." +:+
            destSuffix destination +:+ dq +:+ ")"]))%list /\
  fileName (file p') = scriptName destination /\
  success = runRScript rt (file p') /\
  shown = (if success && show then Some artifact else None).
Proof.
  intros Hp artifact p' success shown.
  destruct (RPlot_ctor_destination env files destination p Hp) as (Hb & Hs & Hfn & Hw).
  split; [rewrite Hs; apply destSuffix_nonempty|]. split; [exact Hw|].
  subst p' success shown artifact. unfold finalize. simpl. rewrite Hb, Hs.
  destruct (decide (destSuffix destination = "pdf")) as [Hpdf|Hpdf].
  - rewrite (bool_decide_eq_false_2 (_ ≠ _)) by tauto.
    rewrite (bool_decide_eq_true_2 _ Hpdf). simpl. rewrite Hb, Hs.
    repeat apply conj; try reflexivity; assumption.
  - rewrite (bool_decide_eq_true_2 (_ ≠ _)) by assumption.
    rewrite (bool_decide_eq_false_2 _ Hpdf). simpl. rewrite Hb, Hs.
    repeat apply conj; try reflexivity; try assumption. now rewrite <- app_assoc.
Qed.

Lemma finalize_after_constructor_witness :
  exists p, RPlot_ctor env_sample files_scenario_A destination_xLog_false = Ok p /\
    suffix p = "png" /\
    snd (finalize runtime_sample p true) = Some "out/plot.png".
Proof.
  eassert (Hp : RPlot_ctor env_sample files_scenario_A destination_xLog_false = Ok _)
    by (vm_compute; reflexivity).
  eexists. split; [exact Hp|]. split; [reflexivity|].
  destruct (finalize_after_constructor env_sample runtime_sample _ _ _ true Hp)
    as (_ & _ & _ & _ & _ & Hshown).
  rewrite Hshown. reflexivity.
Defined.

Lemma violin_columns (columns : list string) :
  forall p,
    let p' := fold_left
                (fun p column => file_write (violinStatement (Pivot.header (major p)) column) p)
                columns p in
    major p' = major p /\ basename p' = basename p /\ suffix p' = suffix p /\
    fileName (file p') = fileName (file p) /\
    written (file p')
    = (written (file p) ++ (violinStatement (Pivot.header (major p)) <$> columns))%list.
Proof.
  induction columns as [|column columns IH]; intros p; simpl.
  - repeat split. now rewrite app_nil_r.
  - destruct (IH (file_write (violinStatement (Pivot.header (major p)) column) p))
      as (-> & -> & -> & -> & ->).
    simpl. repeat split. now rewrite <- app_assoc.
Qed.

(** X14. The metadata report always renders to [./PlotMetadata.pdf] from
    the script [./PlotMetadata.R]: after the constructor's part the
    script has one violin statement per column, keyed by the header of
    [major], then [dev.off()], and never a removal.  There is one more
    statement than there are semicolons in [columns], so an empty
    [columns] still gives one statement, for a column without name. *)
Theorem PlotMetadata_script (env : Env) (rt : Runtime) (files : list string)
    (columns : string) (show : bool) (p' : RPlot) (success : bool)
    (shown : option string) :
  PlotMetadata env rt files columns show = Ok (p', success, shown) ->
  exists p,
    RPlot_ctor env files destination_PlotMetadata = Ok p /\
    fileName (file p') = "./PlotMetadata.R" /\
    written (file p')
    = (written (file p) ++
       (violinStatement (Pivot.header (major p)) <$> QString_split ";" columns) ++
       ["dev.off()" +:+ nl])%list /\
    length (QString_split ";" columns) = S (occurrences ";" columns) /\
    success = runRScript rt (file p') /\
    shown = (if success && show then Some "./PlotMetadata.pdf" else None).
Proof.
  unfold PlotMetadata. intros H. apply bind_Ok in H as (p & Hp & H).
  change {| File.name := "PlotMetadata"; File.m_metadata := ∅ |}
    with destination_PlotMetadata in Hp.
  exists p. split; [exact Hp|].
  destruct (RPlot_ctor_destination env files destination_PlotMetadata p Hp)
    as (Hb & Hs & Hfn & _).
  destruct (violin_columns (QString_split ";" columns) p) as (Hmaj & Hb' & Hs' & Hfn' & Hw').
  cbn zeta in H. set (q := fold_left _ _ p) in *.
  assert (Hsq : suffix q = "pdf") by (rewrite Hs', Hs; reflexivity).
  assert (Hbq : basename q = "./PlotMetadata") by (rewrite Hb', Hb; reflexivity).
  assert (Hfq : fileName (file q) = "./PlotMetadata.R") by (rewrite Hfn', Hfn; reflexivity).
  injection H as <- <- <-. unfold finalize. cbn zeta. simpl suffix. rewrite Hsq.
  simpl. rewrite Hsq, Hbq, Hfq, Hw'.
  repeat apply conj; try reflexivity.
  - now rewrite <- app_assoc.
  - apply QString_split_count.
Qed.

Lemma PlotMetadata_script_witness :
  exists p' success shown,
    PlotMetadata env_sample runtime_sample files_scenario_A "" true
    = Ok (p', success, shown) /\
    shown = Some "./PlotMetadata.pdf" /\
    length (written (file p')) = 18.
Proof.
  eassert (H : PlotMetadata env_sample runtime_sample files_scenario_A "" true = Ok (_, _, _))
    by (vm_compute; reflexivity).
  destruct (PlotMetadata_script _ _ _ _ _ _ _ _ H) as (p & Hp & _ & Hw & _ & _ & Hshown).
  eexists _, _, _. split; [exact H|]. split; [exact Hshown|]. reflexivity.
Defined.

(** ** Further properties: the classification as a whole *)

(** X15. When no smoothing is asked for, every result of the constructor
    has as [major] the largest of its label sets and as [minor] the
    largest of the others, each with the index, the size and the header
    of that set, the set of smallest index being taken among sets of the
    same size. *)
Theorem constructor_selects_two_largest (env : Env) (files : list string)
    (destination : File.t) (p : RPlot) :
  RPlot_ctor env files destination = Ok p ->
  File.get_or File.to_QString destination "smooth" "" = "" ->
  selected (pivotItems p) (pivotHeaders p) (length (pivotItems p)) (-1) (major p) /\
  selected (pivotItems p) (pivotHeaders p) (length (pivotItems p))
    (Pivot.index (major p)) (minor p).
Proof.
  unfold RPlot_ctor. case_bool_decide as Hne; [discriminate|].
  destruct (qSort sortFiles files) as [|first rest] eqn:Hsort.
  { exfalso. apply Hne. now apply qSort_nil_iff. }
  cbn zeta. intros H Hsmooth. apply bind_Ok in H as (p0 & E0 & H).
  apply bind_Ok in H as (p1 & E1 & H). apply bind_Ok in H as (p2 & E2 & H).
  injection H as <-.
  destruct (RPlot_open_default env destination p0 E0) as [Hmaj0 Hmin0].
  rewrite readFiles_cons in E1.
  destruct (readFiles_total (first :: rest) _ (startState_fit first p0))
    as (p1' & E1' & _ & Hsame & _).
  assert (p1' = p1) as -> by (rewrite E1 in E1'; now injection E1').
  destruct Hsame as (Hmaj1 & Hmin1 & _).
  assert (Hmaj : major p1 = Pivot.default) by (rewrite Hmaj1; exact Hmaj0).
  assert (Hmin : minor p1 = Pivot.default) by (rewrite Hmin1; exact Hmin0).
  destruct (classify_selected p1 p2 Hmaj Hmin E2) as (Hi & Hh & HM & Hm).
  destruct (smoothAndOrder_without_match destination p1 p2 Hmaj Hmin E2) as [-> ->].
  { left. exact Hsmooth. }
  destruct (smoothAndOrder_pivots destination p2) as [-> ->].
  rewrite Hi, Hh. split; assumption.
Qed.

Lemma constructor_selects_two_largest_witness :
  exists p, RPlot_ctor env_sample files_scenario_A destination_sample = Ok p /\
    selected (pivotItems p) (pivotHeaders p) (length (pivotItems p)) (-1) (major p).
Proof.
  eassert (Hp : RPlot_ctor env_sample files_scenario_A destination_sample = Ok _)
    by (vm_compute; reflexivity).
  eexists. split; [exact Hp|].
  apply (constructor_selects_two_largest _ _ _ _ Hp). reflexivity.
Defined.
